(** * Audio annotation middleware: assignment engine, submission and skip
      processing, reconciliation and authentication.

    Shallow embedding of [src/middleware/app.py] (with the ledger schema of
    [src/middleware/models_async.py]).  The coordination store (Redis), the
    process memory (the [assignment_queue] and [stats_cache] globals), the
    ledger (PostgreSQL) and the external task source (Label Studio) are the
    four parts of one explicit state; every request handler is a function
    from a state to a reply and a new state.  A handler that raises returns
    the exception together with the state reached when it was raised.

    Handlers run one at a time.  A key of the store records the TTL it was
    given; the passing of time is not modelled, the expiry of a key is an
    event of its own (see [Event]).  Durations and earnings are binary64
    floats, as in Python. *)

From Stdlib Require Import ZArith Floats.
From stdpp Require Import gmap strings list fin_maps pretty sorting.

Set Warnings "-inexact-float,-clear-no-such-hyp".
Open Scope Z_scope.

(** ** Data model *)

(** The JSON object stored under [data.metadata] of a task. *)
Definition JsonDict := list (string * string).

(** [TaskResponse] (also the JSON value kept under [agent:active:{A}]). *)
Record TaskResponse := {
  task_id : Z;
  audio_url : string;
  duration : option float;
  metadata : JsonDict
}.

(** The coordination store, one field per key pattern of the schema:
    - [assignment_queue]         the list key [assignment_queue];
    - [task_locked]              [task:locked:{T}]  : agent id, EX seconds;
    - [agent_active]             [agent:active:{A}] : task data, EX seconds;
    - [task_skipped]             [task:skipped:{T}:{A}] : EX seconds
                                 (the value is the constant "skipped");
    - [task_global_skips]        [task:global_skips:{T}] : counter and the
                                 TTL, if one has been set;
    - [audit_*]                  the audit lists, newest entry first. *)
Record Redis := {
  assignment_queue : list Z;
  task_locked : gmap Z (Z * Z);
  agent_active : gmap Z (TaskResponse * Z);
  task_skipped : gmap (Z * Z) Z;
  task_global_skips : gmap Z (Z * option Z);
  audit_assignments : list (Z * Z * Z);
  audit_completions : list (Z * Z * Z * Z);
  audit_skips : list (Z * Z * Z * string)
}.

(** The in-process globals [assignment_queue] (a dict; here [Memory]) and
    [stats_cache], and [project]. *)
Record Memory := {
  tasks : list Z;
  last_sync : option Z;
  syncing : bool;
  completed_tasks : gset Z;
  total_unlabeled : Z;
  total_locked : Z;
  available : Z;
  last_updated : option Z;
  project : bool
}.

Inductive Status := assigned | completed | skipped.

Global Instance Status_eq_dec : EqDecision Status.
Proof. solve_decision. Defined.

(** A row of [transcription_sessions]; rows are kept in insertion order, the
    position standing for the autoincremented [id]. *)
Record TranscriptionSession := {
  agent_id : Z;
  ts_task_id : Z;
  assigned_at : Z;
  completed_at : option Z;
  duration_seconds : option float;
  status : Status;
  transcription_length : option Z;
  skip_reason : option string
}.

(** A row of [agent_stats] (keyed by [agent_id]). *)
Record AgentStats := {
  total_duration_seconds : float;
  total_tasks_completed : Z;
  total_tasks_skipped : Z;
  total_earnings : float;
  last_active : option Z
}.

Record Ledger := {
  transcription_sessions : list TranscriptionSession;
  agent_stats : gmap Z AgentStats
}.

(** What the external task source answers: the ids of
    [project.get_unlabeled_tasks()] ([None] when the call raises), the
    [data] of [GET /api/tasks/{id}] (absent when the status is not 200 or
    the call raises), and the annotation requests it has been sent. *)
Record LabelStudio := {
  unlabeled_tasks : option (list Z);
  task_details : gmap Z (option float * JsonDict);
  annotation_posts : list (Z * string)
}.

Record State := {
  redis : Redis;
  mem : Memory;
  db : Ledger;
  ls : LabelStudio
}.

(** *** Field updates *)

Definition with_queue (q : list Z) (r : Redis) : Redis :=
  {| assignment_queue := q; task_locked := task_locked r;
     agent_active := agent_active r; task_skipped := task_skipped r;
     task_global_skips := task_global_skips r;
     audit_assignments := audit_assignments r;
     audit_completions := audit_completions r;
     audit_skips := audit_skips r |}.

Definition with_locked (m : gmap Z (Z * Z)) (r : Redis) : Redis :=
  {| assignment_queue := assignment_queue r; task_locked := m;
     agent_active := agent_active r; task_skipped := task_skipped r;
     task_global_skips := task_global_skips r;
     audit_assignments := audit_assignments r;
     audit_completions := audit_completions r;
     audit_skips := audit_skips r |}.

Definition with_active (m : gmap Z (TaskResponse * Z)) (r : Redis) : Redis :=
  {| assignment_queue := assignment_queue r; task_locked := task_locked r;
     agent_active := m; task_skipped := task_skipped r;
     task_global_skips := task_global_skips r;
     audit_assignments := audit_assignments r;
     audit_completions := audit_completions r;
     audit_skips := audit_skips r |}.

Definition with_skipped (m : gmap (Z * Z) Z) (r : Redis) : Redis :=
  {| assignment_queue := assignment_queue r; task_locked := task_locked r;
     agent_active := agent_active r; task_skipped := m;
     task_global_skips := task_global_skips r;
     audit_assignments := audit_assignments r;
     audit_completions := audit_completions r;
     audit_skips := audit_skips r |}.

Definition with_global_skips (m : gmap Z (Z * option Z)) (r : Redis) : Redis :=
  {| assignment_queue := assignment_queue r; task_locked := task_locked r;
     agent_active := agent_active r; task_skipped := task_skipped r;
     task_global_skips := m;
     audit_assignments := audit_assignments r;
     audit_completions := audit_completions r;
     audit_skips := audit_skips r |}.

Definition with_audit_assignments (l : list (Z * Z * Z)) (r : Redis) : Redis :=
  {| assignment_queue := assignment_queue r; task_locked := task_locked r;
     agent_active := agent_active r; task_skipped := task_skipped r;
     task_global_skips := task_global_skips r;
     audit_assignments := l;
     audit_completions := audit_completions r;
     audit_skips := audit_skips r |}.

Definition with_audit_completions (l : list (Z * Z * Z * Z)) (r : Redis) : Redis :=
  {| assignment_queue := assignment_queue r; task_locked := task_locked r;
     agent_active := agent_active r; task_skipped := task_skipped r;
     task_global_skips := task_global_skips r;
     audit_assignments := audit_assignments r;
     audit_completions := l;
     audit_skips := audit_skips r |}.

Definition with_audit_skips (l : list (Z * Z * Z * string)) (r : Redis) : Redis :=
  {| assignment_queue := assignment_queue r; task_locked := task_locked r;
     agent_active := agent_active r; task_skipped := task_skipped r;
     task_global_skips := task_global_skips r;
     audit_assignments := audit_assignments r;
     audit_completions := audit_completions r;
     audit_skips := l |}.

Definition with_tasks (l : list Z) (m : Memory) : Memory :=
  {| tasks := l; last_sync := last_sync m; syncing := syncing m;
     completed_tasks := completed_tasks m;
     total_unlabeled := total_unlabeled m; total_locked := total_locked m;
     available := available m; last_updated := last_updated m;
     project := project m |}.

Definition with_syncing (b : bool) (m : Memory) : Memory :=
  {| tasks := tasks m; last_sync := last_sync m; syncing := b;
     completed_tasks := completed_tasks m;
     total_unlabeled := total_unlabeled m; total_locked := total_locked m;
     available := available m; last_updated := last_updated m;
     project := project m |}.

Definition with_redis (r : Redis) (s : State) : State :=
  {| redis := r; mem := mem s; db := db s; ls := ls s |}.

Definition with_mem (m : Memory) (s : State) : State :=
  {| redis := redis s; mem := m; db := db s; ls := ls s |}.

Definition with_db (d : Ledger) (s : State) : State :=
  {| redis := redis s; mem := mem s; db := d; ls := ls s |}.

Definition with_ls (l : LabelStudio) (s : State) : State :=
  {| redis := redis s; mem := mem s; db := db s; ls := l |}.

(** ** Exceptions and replies *)

Inductive Exception :=
  | HTTPException (status_code : Z) (detail : string)
  | ValueError (msg : string).

(** [str(e)]: the message of a built-in exception; for an [HTTPException]
    the status code and the detail. *)
Definition str (e : Exception) : string :=
  match e with
  | HTTPException c d => pretty c +:+ ": " +:+ d
  | ValueError m => m
  end.

Inductive Result (A : Type) :=
  | Return (a : A)
  | Raise (e : Exception).
Arguments Return {A} a.
Arguments Raise {A} e.

(** ** Commands of the coordination store *)

Definition LPOP (r : Redis) : option Z * Redis :=
  match assignment_queue r with
  | [] => (None, r)
  | T :: q => (Some T, with_queue q r)
  end.

Definition RPUSH (T : Z) (r : Redis) : Redis :=
  with_queue (assignment_queue r ++ [T]) r.

Definition LLEN (r : Redis) : Z := Z.of_nat (length (assignment_queue r)).

(** [LREM assignment_queue 0 T]: every occurrence is removed. *)
Definition LREM0 (T : Z) (r : Redis) : Redis :=
  with_queue (filter (λ x, x ≠ T) (assignment_queue r)) r.

Definition GET_global_skips (T : Z) (r : Redis) : option Z :=
  fst <$> task_global_skips r !! T.

Definition EXISTS_skipped (T A : Z) (r : Redis) : bool :=
  bool_decide (is_Some (task_skipped r !! (T, A))).

Definition GET_locked (T : Z) (r : Redis) : option Z :=
  fst <$> task_locked r !! T.

Definition EXISTS_locked (T : Z) (r : Redis) : bool :=
  bool_decide (is_Some (task_locked r !! T)).

(** [SET task:locked:{T} A NX EX ex]: the reply is truthy when the key was
    set. *)
Definition SET_locked_NX_EX (T A ex : Z) (r : Redis) : bool * Redis :=
  match task_locked r !! T with
  | Some _ => (false, r)
  | None => (true, with_locked (<[T := (A, ex)]> (task_locked r)) r)
  end.

Definition DEL_locked (T : Z) (r : Redis) : Redis :=
  with_locked (delete T (task_locked r)) r.

Definition GET_active (A : Z) (r : Redis) : option TaskResponse :=
  fst <$> agent_active r !! A.

Definition SETEX_active (A ex : Z) (d : TaskResponse) (r : Redis) : Redis :=
  with_active (<[A := (d, ex)]> (agent_active r)) r.

Definition DEL_active (A : Z) (r : Redis) : Redis :=
  with_active (delete A (agent_active r)) r.

Definition SETEX_skipped (T A ex : Z) (r : Redis) : Redis :=
  with_skipped (<[(T, A) := ex]> (task_skipped r)) r.

(** [INCR]: a missing key counts from 0 and is created without a TTL; an
    existing key keeps its TTL. *)
Definition INCR_global_skips (T : Z) (r : Redis) : Z * Redis :=
  match task_global_skips r !! T with
  | Some (n, ttl) =>
      (n + 1, with_global_skips (<[T := (n + 1, ttl)]> (task_global_skips r)) r)
  | None =>
      (1, with_global_skips (<[T := (1, None)]> (task_global_skips r)) r)
  end.

Definition EXPIRE_global_skips (T ex : Z) (r : Redis) : Redis :=
  with_global_skips (alter (λ v, (v.1, Some ex)) T (task_global_skips r)) r.

Definition DEL_global_skips (T : Z) (r : Redis) : Redis :=
  with_global_skips (delete T (task_global_skips r)) r.

(** ** The atomic assignment script *)

Inductive LuaReply := Nil | DISABLED | SKIPPED | LOCKED | TaskId (T : Z).

(** The script run by [EVAL] in [request_task_for_agent], for [ARGV[1] = A]. *)
Definition lua_script (A : Z) (r : Redis) : LuaReply * Redis :=
  match LPOP r with
  | (None, r1) => (Nil, r1)
  | (Some T, r1) =>
      let global_skip_count := default 0 (GET_global_skips T r1) in
      if bool_decide (global_skip_count >= 5) then (DISABLED, r1)
      else if EXISTS_skipped T A r1 then (SKIPPED, RPUSH T r1)
      else
        match SET_locked_NX_EX T A 3600 r1 with
        | (true, r2) => (TaskId T, r2)
        | (false, r2) => (LOCKED, RPUSH T r2)
        end
  end.

(** ** Specification-level views of the coordination state *)

Definition GlobalSkipCount (T : Z) (s : Redis) : Z :=
  default 0 (GET_global_skips T s).

Definition SkipCooldown (T A : Z) (s : Redis) : Prop :=
  is_Some (task_skipped s !! (T, A)).

Definition Lock (T : Z) (s : Redis) : option Z := GET_locked T s.

Definition ActiveAssignment (A : Z) (s : Redis) : option TaskResponse :=
  GET_active A s.

Definition K_disable : Z := 5.

(** ** Reconciliation *)

Definition DEL_queue (r : Redis) : Redis := with_queue [] r.

(** The pipeline of [sync_assignment_queue]: [DELETE] then one [RPUSH] per
    id, in order. *)
Definition rebuild_queue (fresh_task_ids : list Z) (r : Redis) : Redis :=
  foldl (λ r task_id, RPUSH task_id r) (DEL_queue r) fresh_task_ids.

Definition sync_assignment_queue (now : Z) (s : State) : State :=
  if syncing (mem s) then s
  else
    let s1 := with_mem (with_syncing true (mem s)) s in
    let s2 :=
      if project (mem s1) then
        match unlabeled_tasks (ls s1) with
        | None => s1
        | Some ids =>
            let fresh_task_ids :=
              filter (λ id, id ∉ completed_tasks (mem s1)) ids in
            let r := rebuild_queue fresh_task_ids (redis s1) in
            let locked_count :=
              Z.of_nat (length (filter (λ id, EXISTS_locked id r = true)
                                       fresh_task_ids)) in
            let n := Z.of_nat (length fresh_task_ids) in
            with_mem
              {| tasks := fresh_task_ids; last_sync := Some now;
                 syncing := syncing (mem s1);
                 completed_tasks := completed_tasks (mem s1);
                 total_unlabeled := n; total_locked := locked_count;
                 available := n - locked_count; last_updated := Some now;
                 project := project (mem s1) |}
              (with_redis r s1)
        end
      else s1 in
    with_mem (with_syncing false (mem s2)) s2.

Definition get_available_task_ids (s : State) : list Z := tasks (mem s).

(** [list.remove(x)]: the first occurrence goes; [None] stands for the
    [ValueError] raised when there is none. *)
Fixpoint list_remove (x : Z) (l : list Z) : option (list Z) :=
  match l with
  | [] => None
  | y :: l' =>
      if decide (y = x) then Some l' else (y ::.) <$> list_remove x l'
  end.

Definition remove_task_from_queue (task_id : Z) (s : State) : State :=
  let tasks1 :=
    if decide (task_id ∈ tasks (mem s))
    then default (tasks (mem s)) (list_remove task_id (tasks (mem s)))
    else tasks (mem s) in
  let r := LREM0 task_id (redis s) in
  with_mem
    {| tasks := tasks1; last_sync := last_sync (mem s);
       syncing := syncing (mem s);
       completed_tasks := {[task_id]} ∪ completed_tasks (mem s);
       total_unlabeled := Z.max 0 (total_unlabeled (mem s) - 1);
       total_locked := total_locked (mem s);
       available := Z.of_nat (length tasks1);
       last_updated := last_updated (mem s);
       project := project (mem s) |}
    (with_redis r s).

(** ** Authentication *)


(** ** Assignment engine *)

(** The batch transfer of one loop iteration: for each id, queue an [RPUSH]
    in the pipeline and remove the id from the in-memory list. *)
Fixpoint transfer (ids pipeline : list Z) (m : Memory)
  : Result (list Z) * Memory :=
  match ids with
  | [] => (Return pipeline, m)
  | memory_task_id :: ids' =>
      match list_remove memory_task_id (tasks m) with
      | None => (Raise (ValueError "list.remove(x): x not in list"), m)
      | Some l => transfer ids' (pipeline ++ [memory_task_id]) (with_tasks l m)
      end
  end.

Definition execute_rpush (pipeline : list Z) (r : Redis) : Redis :=
  foldl (λ r id, RPUSH id r) r pipeline.

(** The first step of an iteration: when [LLEN assignment_queue] is 0, move
    [available_task_ids[:10]] from memory into the store. *)
Definition refill (available_task_ids : list Z) (s : State)
  : Result unit * State :=
  if bool_decide (LLEN (redis s) = 0) then
    match transfer (take 10 available_task_ids) [] (mem s) with
    | (Raise e, m) => (Raise e, with_mem m s)
    | (Return pipeline, m) =>
        (Return tt, with_redis (execute_rpush pipeline (redis s)) (with_mem m s))
    end
  else (Return tt, s).

Definition default_stats : AgentStats :=
  {| total_duration_seconds := 0; total_tasks_completed := 0;
     total_tasks_skipped := 0; total_earnings := 0; last_active := None |}.

Definition touch (now : Z) (a : AgentStats) : AgentStats :=
  {| total_duration_seconds := total_duration_seconds a;
     total_tasks_completed := total_tasks_completed a;
     total_tasks_skipped := total_tasks_skipped a;
     total_earnings := total_earnings a; last_active := Some now |}.

(** The success branch of the loop: the script has locked [task_id]. *)
Definition assign (now A task_id : Z) (s : State) : TaskResponse * State :=
  let task_details := task_details (ls s) !! task_id in
  let task_data :=
    {| task_id := task_id;
       audio_url := "/api/audio/stream/" +:+ pretty task_id +:+ "/" +:+ pretty A;
       duration := task_details ≫= fst;
       metadata := default [] (snd <$> task_details) |} in
  let r1 := SETEX_active A 3600 task_data (redis s) in
  let transcription_session :=
    {| agent_id := A; ts_task_id := task_id; assigned_at := now;
       completed_at := None; duration_seconds := task_details ≫= fst;
       status := assigned; transcription_length := None;
       skip_reason := None |} in
  let sessions1 := transcription_sessions (db s) ++ [transcription_session] in
  let agent_stats1 :=
    <[A := touch now (default default_stats (agent_stats (db s) !! A))]>
      (agent_stats (db s)) in
  let r2 := with_audit_assignments ((A, task_id, now) :: audit_assignments r1) r1 in
  (task_data,
   with_db {| transcription_sessions := sessions1; agent_stats := agent_stats1 |}
     (with_redis r2 s)).

Definition exhausted (A : Z) : Exception :=
  HTTPException 404
    ("No available tasks for agent " +:+ pretty A +:+
     " - all tasks are locked or recently skipped").

Definition queue_empty : Exception :=
  HTTPException 404 "No tasks available in assignment queue".

(** [for attempt in range(max_attempts)] and what follows the loop. *)
Fixpoint attempts (max_attempts : nat) (now A : Z)
    (available_task_ids : list Z) (s : State) : Result TaskResponse * State :=
  match max_attempts with
  | O => (Raise (exhausted A), s)
  | S n =>
      match refill available_task_ids s with
      | (Raise e, s1) => (Raise e, s1)
      | (Return _, s1) =>
          match lua_script A (redis s1) with
          | (Nil, r) => (Raise (exhausted A), with_redis r s1)
          | (SKIPPED, r) | (LOCKED, r) | (DISABLED, r) =>
              attempts n now A available_task_ids (with_redis r s1)
          | (TaskId T, r) =>
              let (task_data, s2) := assign now A T (with_redis r s1) in
              (Return task_data, s2)
          end
      end
  end.

(** The check of the in-memory queue that precedes the loop. *)
Definition ensure_available (now : Z) (s : State) : list Z * State :=
  match get_available_task_ids s with
  | _ :: _ => (get_available_task_ids s, s)
  | [] =>
      let s1 := sync_assignment_queue now s in
      match get_available_task_ids s1 with
      | _ :: _ => (get_available_task_ids s1, s1)
      | [] =>
          if project (mem s1) then
            match unlabeled_tasks (ls s1) with
            | Some (_ :: _) =>
                let s2 := sync_assignment_queue now s1 in
                (get_available_task_ids s2, s2)
            | _ => ([], s1)
            end
          else ([], s1)
      end
  end.

(** [except HTTPException: raise] / [except Exception as e: raise
    HTTPException(500, str(e))]. *)
Definition reraise_http {A} (x : Result A) : Result A :=
  match x with
  | Raise (HTTPException c d) => Raise (HTTPException c d)
  | Raise e => Raise (HTTPException 500 (str e))
  | Return a => Return a
  end.

(** [except Exception as e: raise HTTPException(500, str(e))]. *)
Definition reraise_500 {A} (x : Result A) : Result A :=
  match x with
  | Raise e => Raise (HTTPException 500 (str e))
  | Return a => Return a
  end.

Definition max_attempts : nat := 50.

Definition request_task_for_agent (now A : Z) (s : State)
  : Result TaskResponse * State :=
  match GET_active A (redis s) with
  | Some task_data => (Return task_data, s)
  | None =>
      match ensure_available now s with
      | ([], s1) => (Raise queue_empty, s1)
      | (available_task_ids, s1) =>
          let (x, s2) := attempts max_attempts now A available_task_ids s1 in
          (reraise_http x, s2)
      end
  end.

(** ** Submission and skip processing *)

(** The ownership test shared by submit, skip and the audio stream:
    [locked_by is None or int(locked_by) != agent_id]. *)
Definition not_holder (T A : Z) (r : Redis) : bool :=
  match GET_locked T r with
  | None => true
  | Some locked_by => bool_decide (locked_by ≠ A)
  end.

(** The filter of the session query: the rows of agent [A] and task [T]
    with status ['assigned']. *)
Definition is_assigned_to (A T : Z) (x : TranscriptionSession) : bool :=
  bool_decide (agent_id x = A) && bool_decide (ts_task_id x = T)
  && bool_decide (status x = assigned).

Definition complete_session (now len : Z) (x : TranscriptionSession)
  : TranscriptionSession :=
  {| agent_id := agent_id x; ts_task_id := ts_task_id x;
     assigned_at := assigned_at x; completed_at := Some now;
     duration_seconds := duration_seconds x; status := completed;
     transcription_length := Some len; skip_reason := skip_reason x |}.

Definition skip_session (reason : string) (x : TranscriptionSession)
  : TranscriptionSession :=
  {| agent_id := agent_id x; ts_task_id := ts_task_id x;
     assigned_at := assigned_at x; completed_at := completed_at x;
     duration_seconds := duration_seconds x; status := skipped;
     transcription_length := transcription_length x;
     skip_reason := Some reason |}.

(** Truth value of an [Optional[float]]: [None] and zero are false. *)
Definition truthy (d : option float) : option float :=
  match d with
  | Some x => if PrimFloat.eqb x 0 then None else Some x
  | None => None
  end.

(** The aggregate update of a completed session of duration [d]. *)
Definition add_completion (now : Z) (d : float) (a : AgentStats) : AgentStats :=
  {| total_duration_seconds := (total_duration_seconds a + d)%float;
     total_tasks_completed := total_tasks_completed a + 1;
     total_tasks_skipped := total_tasks_skipped a;
     total_earnings := (total_earnings a + (d / 60) * 0.45)%float;
     last_active := Some now |}.

Definition add_skip (now : Z) (a : AgentStats) : AgentStats :=
  {| total_duration_seconds := total_duration_seconds a;
     total_tasks_completed := total_tasks_completed a;
     total_tasks_skipped := total_tasks_skipped a + 1;
     total_earnings := total_earnings a;
     last_active := Some now |}.

(** The ledger part of [submit_transcription]. *)
Definition complete_in_ledger (now A T len : Z) (d : Ledger) : Ledger :=
  let sessions := filter (λ x, is_assigned_to A T x = true)
                         (transcription_sessions d) in
  match last sessions with
  | None => d
  | Some session =>
      let rows :=
        (λ x, if is_assigned_to A T x then complete_session now len x else x)
          <$> transcription_sessions d in
      let stats1 :=
        match agent_stats d !! A, truthy (duration_seconds session) with
        | Some a, Some dur => <[A := add_completion now dur a]> (agent_stats d)
        | _, _ => agent_stats d
        end in
      {| transcription_sessions := rows; agent_stats := stats1 |}
  end.

(** The ledger part of [skip_task]. *)
Definition skip_in_ledger (now A T : Z) (reason : string) (d : Ledger) : Ledger :=
  let sessions := filter (λ x, is_assigned_to A T x = true)
                         (transcription_sessions d) in
  match sessions with
  | [] => d
  | _ :: _ =>
      let rows :=
        (λ x, if is_assigned_to A T x then skip_session reason x else x)
          <$> transcription_sessions d in
      let stats1 :=
        match agent_stats d !! A with
        | Some a => <[A := add_skip now a]> (agent_stats d)
        | None => agent_stats d
        end in
      {| transcription_sessions := rows; agent_stats := stats1 |}
  end.

Definition post_annotation (T : Z) (text : string) (l : LabelStudio) : LabelStudio :=
  {| unlabeled_tasks := unlabeled_tasks l; task_details := task_details l;
     annotation_posts := annotation_posts l ++ [(T, text)] |}.

(** [submit_transcription]; [status_code] is the answer of the task source
    to the annotation request. *)
Definition submit_transcription (now task_id A : Z) (transcription : string)
    (status_code : Z) (s : State) : Result string * State :=
  if not_holder task_id A (redis s)
  then (Raise (HTTPException 403 "Cannot submit for this task"), s)
  else
    let s1 := with_ls (post_annotation task_id transcription (ls s)) s in
    if bool_decide (status_code ∉ [200; 201])
    then (reraise_500 (Raise (HTTPException 500 "Failed to create annotation")), s1)
    else
      let len := Z.of_nat (String.length transcription) in
      let s2 := with_db (complete_in_ledger now A task_id len (db s1)) s1 in
      let r1 := DEL_active A (DEL_locked task_id (redis s2)) in
      let r2 := with_audit_completions
                  ((A, task_id, now, len) :: audit_completions r1) r1 in
      let s3 := remove_task_from_queue task_id (with_redis r2 s2) in
      (Return "Transcription submitted successfully", s3).

(** [skip_data.reason or "No reason provided"]. *)
Definition reason_or_default (reason : option string) : string :=
  match reason with
  | Some (String c r) => String c r
  | _ => "No reason provided"
  end.

(** [skip_task]. *)
Definition skip_task (now task_id A : Z) (reason : option string) (s : State)
  : Result string * State :=
  if not_holder task_id A (redis s)
  then (Raise (HTTPException 403 "Cannot skip task not assigned to you"), s)
  else
    let r1 := SETEX_skipped task_id A 1800 (redis s) in
    let (global_skip_count, r2) := INCR_global_skips task_id r1 in
    let r3 := if bool_decide (global_skip_count = 1)
              then EXPIRE_global_skips task_id 86400 r2 else r2 in
    let s1 := with_db (skip_in_ledger now A task_id (reason_or_default reason)
                                      (db s)) (with_redis r3 s) in
    let r4 := DEL_active A (DEL_locked task_id (redis s1)) in
    let r5 := with_audit_skips
                ((A, task_id, now, reason_or_default reason) :: audit_skips r4) r4 in
    (Return "Task skipped successfully", with_redis r5 s1).

(** ** Disabled tasks *)

(** The order of [disabled_tasks.sort(key=lambda x: x['task_id'])]. *)
Definition by_task_id (x y : Z * Z) : Prop := x.1 ≤ y.1.

Global Instance by_task_id_dec : RelDecision by_task_id.
Proof. intros x y. unfold by_task_id. apply _. Defined.

(** [get_disabled_tasks]: the tasks whose counter is at least 5, with the
    counter, sorted by task id. *)
Definition get_disabled_tasks (r : Redis) : list (Z * Z) :=
  merge_sort by_task_id
    (omap (λ kv : Z * (Z * option Z),
             if bool_decide (kv.2.1 >= 5) then Some (kv.1, kv.2.1) else None)
          (map_to_list (task_global_skips r))).

(** One step of the loop of [reset_disabled_tasks] over the keys. *)
Definition reset_key (acc : list Z * Redis) (key : Z) : list Z * Redis :=
  match GET_global_skips key acc.2 with
  | Some skip_count =>
      if bool_decide (skip_count >= 2)
      then (acc.1 ++ [key], DEL_global_skips key acc.2)
      else acc
  | None => acc
  end.

Record ResetReply := {
  reset_count : Z;
  restored_tasks : list Z;
  sync_scheduled : bool
}.

(** [reset_disabled_tasks]; [sync_scheduled] tells whether
    [asyncio.create_task(sync_assignment_queue())] was called. *)
Definition reset_disabled_tasks (s : State) : ResetReply * State :=
  let keys := (map_to_list (task_global_skips (redis s))).*1 in
  let '(restored, r) := foldl reset_key ([], redis s) keys in
  let n := Z.of_nat (length restored) in
  ({| reset_count := n; restored_tasks := restored;
      sync_scheduled := bool_decide (n > 0) |},
   with_redis r s).

(** ** Sequences of events *)

(** The keys of the coordination store that carry a TTL. *)
Inductive Key :=
  | KLocked (T : Z)
  | KActive (A : Z)
  | KSkipped (T A : Z)
  | KGlobalSkips (T : Z).

(** The store drops a key whose TTL has run out. *)
Definition expire (k : Key) (r : Redis) : Redis :=
  match k with
  | KLocked T => DEL_locked T r
  | KActive A => DEL_active A r
  | KSkipped T A => with_skipped (delete (T, A) (task_skipped r)) r
  | KGlobalSkips T => DEL_global_skips T r
  end.

(** What happens to the system: the calls that reach the handlers above
    (each carrying the time at which it is served), a run of the
    reconciler, the expiry of a key, and a change of what the task source
    answers. *)
Inductive Event :=
  | Request (now A : Z)
  | Submit (now T A : Z) (transcription : string) (status_code : Z)
  | Skip (now T A : Z) (reason : option string)
  | Sync (now : Z)
  | ResetDisabled
  | Expire (k : Key)
  | Upstream (answers : LabelStudio).

Inductive Reply :=
  | Assigned (task_data : TaskResponse)
  | Done
  | Failed (e : Exception).

Definition reply_of {A} (f : A → Reply) (x : Result A) : Reply :=
  match x with
  | Return a => f a
  | Raise e => Failed e
  end.

Definition step (c : Event) (s : State) : Reply * State :=
  match c with
  | Request now A =>
      let (x, s') := request_task_for_agent now A s in
      (reply_of Assigned x, s')
  | Submit now T A transcription status_code =>
      let (x, s') := submit_transcription now T A transcription status_code s in
      (reply_of (λ _, Done) x, s')
  | Skip now T A reason =>
      let (x, s') := skip_task now T A reason s in
      (reply_of (λ _, Done) x, s')
  | Sync now => (Done, sync_assignment_queue now s)
  | ResetDisabled => (Done, (reset_disabled_tasks s).2)
  | Expire k => (Done, with_redis (expire k (redis s)) s)
  | Upstream answers => (Done, with_ls answers s)
  end.

Fixpoint run (cs : list Event) (s : State) : list Reply * State :=
  match cs with
  | [] => ([], s)
  | c :: cs' =>
      let (x, s1) := step c s in
      let (xs, s2) := run cs' s1 in
      (x :: xs, s2)
  end.

(** The reply hands out task [T]. *)
Definition offers (T : Z) (x : Reply) : Prop :=
  ∃ task_data, x = Assigned task_data ∧ task_id task_data = T.

(** Number of ledger rows of agent [A] with status ['completed']. *)
Definition completed_rows (A : Z) (d : Ledger) : Z :=
  Z.of_nat (length (filter (λ x, agent_id x = A ∧ status x = completed)
                           (transcription_sessions d))).

(** A task is disabled when its counter has reached the threshold. *)
Definition disabled (T : Z) (r : Redis) : Prop := GlobalSkipCount T r >= K_disable.





(** The data-model invariant on active assignments: whoever has an active
    assignment holds the lock of its task. *)
Definition active_holds_lock (r : Redis) : Prop :=
  ∀ A task_data, ActiveAssignment A r = Some task_data →
                 Lock (task_id task_data) r = Some A.

(** ** Counts for the dashboard *)

(** The reply of [get_available_task_count]; [note] is present while the
    stats cache has never been filled, [available_for_agent] when an agent
    id was passed. *)
Record CountReply := {
  available_tasks : Z;
  cr_total_unlabeled : Z;
  note : option string;
  available_for_agent : option Z
}.

(** [get_available_task_count]; the boolean tells whether
    [asyncio.create_task(sync_assignment_queue())] was called.  The state is
    only read. *)
Definition get_available_task_count (agent_id : option Z) (s : State)
  : CountReply * bool :=
  match last_updated (mem s) with
  | None =>
      ({| available_tasks := Z.of_nat (length (tasks (mem s)));
          cr_total_unlabeled := Z.of_nat (length (tasks (mem s)));
          note := Some "Stats syncing";
          available_for_agent := None |}, true)
  | Some _ =>
      let available_for_agent :=
        match agent_id with
        | Some a =>
            if bool_decide (a ≠ 0) then
              Some (Z.of_nat (length (filter
                      (λ task_id, EXISTS_skipped task_id a (redis s) = false
                                  ∧ EXISTS_locked task_id (redis s) = false)
                      (tasks (mem s)))))
            else None
        | None => None
        end in
      ({| available_tasks := available (mem s);
          cr_total_unlabeled := total_unlabeled (mem s);
          note := None;
          available_for_agent := available_for_agent |}, false)
  end.

(** ** Views of the ledger and of the state used by the properties *)

(** Number of ledger rows of agent [A] with status ['skipped']. *)
Definition skipped_rows (A : Z) (d : Ledger) : Z :=
  Z.of_nat (length (filter (λ x, agent_id x = A ∧ status x = skipped)
                           (transcription_sessions d))).

(** Every aggregate counts at most the rows of its agent. *)
Definition counts_bounded (d : Ledger) : Prop :=
  ∀ A a, agent_stats d !! A = Some a →
    0 ≤ total_tasks_completed a ≤ completed_rows A d ∧
    0 ≤ total_tasks_skipped a ≤ skipped_rows A d.

(** A row and what it may have become: agent, task, assignment time and
    duration are kept, and a row that was completed or skipped is kept
    whole. *)
Definition row_evolves (x y : TranscriptionSession) : Prop :=
  agent_id y = agent_id x ∧ ts_task_id y = ts_task_id x ∧
  assigned_at y = assigned_at x ∧ duration_seconds y = duration_seconds x ∧
  (status x ≠ assigned → y = x).

(** The rows [l] and what they may have become: every row evolves in
    place, and rows are added at the end. *)
Definition ledger_evolves (l l' : list TranscriptionSession) : Prop :=
  ∃ l1 l2, l' = l1 ++ l2 ∧ Forall2 row_evolves l l1.

(** [s'] differs from [s] at most in the store queue and in the process
    memory. *)
Definition same_but_queue (s s' : State) : Prop :=
  db s' = db s ∧ ls s' = ls s ∧
  ∃ q, redis s' = with_queue q (redis s).


(** The events that may take the lock of [T] away from its holder [B]: a
    submit or a skip of [T] by [B], and the expiry of the lock. *)
Definition releases (T B : Z) (e : Event) : Prop :=
  match e with
  | Submit _ T' B' _ _ => T' = T ∧ B' = B
  | Skip _ T' B' _ => T' = T ∧ B' = B
  | Expire (KLocked T') => T' = T
  | _ => False
  end.

(** Agent [A] is barred from task [T]: the cooldown exists and [T] is not
    the active assignment of [A]. *)
Definition barred (T A : Z) (s : State) : Prop :=
  SkipCooldown T A (redis s) ∧
  ∀ d, ActiveAssignment A (redis s) = Some d → task_id d ≠ T.

(** ** Concrete states used by the examples *)

Module Scenario.

Definition redis0 : Redis :=
  {| assignment_queue := []; task_locked := ∅; agent_active := ∅;
     task_skipped := ∅; task_global_skips := ∅; audit_assignments := [];
     audit_completions := []; audit_skips := [] |}.

Definition mem0 : Memory :=
  {| tasks := []; last_sync := None; syncing := false; completed_tasks := ∅;
     total_unlabeled := 0; total_locked := 0; available := 0;
     last_updated := None; project := true |}.

Definition db0 : Ledger := {| transcription_sessions := []; agent_stats := ∅ |}.

(** A task source that lists [ids] as unlabeled and knows the duration
    (90 s) of task 101 only. *)
Definition ls0 (ids : list Z) : LabelStudio :=
  {| unlabeled_tasks := Some ids;
     task_details := {[ 101 := (Some 90%float, []) ]};
     annotation_posts := [] |}.

(** The state after start-up: nothing stored, [ids] unlabeled upstream. *)
Definition boot (ids : list Z) : State :=
  sync_assignment_queue 0
    {| redis := redis0; mem := mem0; db := db0; ls := ls0 ids |}.

(** A task source that does not answer. *)
Definition down : LabelStudio :=
  {| unlabeled_tasks := None; task_details := ∅; annotation_posts := [] |}.

(** Agent 7 has requested a task after start-up with tasks 101 and 102
    unlabeled, and holds task 101. *)
Definition held : State := (request_task_for_agent 1 7 (boot [101; 102])).2.

(** Agent 7 has skipped task 101: its counter stands at 1. *)
Definition skipped_once : State := (skip_task 2 101 7 None held).2.

(** Agent 7 lets the assignment of task 101 expire, the reconciler rebuilds
    the queue, and agent 7 asks again: task 101 is assigned a second time. *)
Definition resumed : State :=
  (run [Expire (KLocked 101); Expire (KActive 7); Sync 3700; Request 3701 7]
       held).2.

(** Agent 7 has submitted task 101 and then been assigned task 102, of
    which the task source knows no duration. *)
Definition holds_102 : State :=
  (request_task_for_agent 3 7
     (submit_transcription 2 101 7 "hello" 201 held).2).2.

(** Task 400 is the only unlabeled task; agents 1 to 5 are each assigned
    it and skip it, one after the other. *)
Definition five_skips : State :=
  (run [Request 1 1; Skip 2 400 1 None; Request 3 2; Skip 4 400 2 None;
        Request 5 3; Skip 6 400 3 None; Request 7 4; Skip 8 400 4 None;
        Request 9 5; Skip 10 400 5 None] (boot [400])).2.

(** Tasks 201 and 202 are unlabeled.  Agents 1 and 2 are assigned one
    each; agent 3 finds both locked, the loop having moved them from the
    in-memory list into the store; agent 1 skips task 201; then the task
    source stops answering. *)
Definition drained : State :=
  (run [Request 1 1; Request 2 2; Request 3 3; Skip 4 201 1 None;
        Upstream down] (boot [201; 202])).2.

(** Task 400 has been skipped by agents 1 to 4 and is held by agent 5. *)
Definition four_skips_held : State :=
  (run [Request 1 1; Skip 2 400 1 None; Request 3 2; Skip 4 400 2 None;
        Request 5 3; Skip 6 400 3 None; Request 7 4; Skip 8 400 4 None;
        Request 9 5] (boot [400])).2.

End Scenario.

(** * Properties *)

(** ** The atomic script *)

Lemma lua_script_empty A r :
  assignment_queue r = [] → lua_script A r = (Nil, r).
Proof. intros H. unfold lua_script, LPOP. by rewrite H. Qed.

Lemma lua_script_disabled A r T q :
  assignment_queue r = T :: q → GlobalSkipCount T r >= K_disable →
  lua_script A r = (DISABLED, with_queue q r).
Proof.
  intros Hq Hk. unfold lua_script, LPOP. rewrite Hq.
  change (default 0 (GET_global_skips T (with_queue q r)))
    with (GlobalSkipCount T r).
  by rewrite bool_decide_eq_true_2.
Qed.

Lemma lua_script_skipped A r T q :
  assignment_queue r = T :: q → GlobalSkipCount T r < K_disable →
  SkipCooldown T A r →
  lua_script A r = (SKIPPED, with_queue (q ++ [T]) r).
Proof.
  intros Hq Hk Hs. unfold lua_script, LPOP. rewrite Hq.
  change (default 0 (GET_global_skips T (with_queue q r)))
    with (GlobalSkipCount T r).
  rewrite bool_decide_eq_false_2 by (unfold K_disable in Hk; lia).
  unfold EXISTS_skipped; simpl.
  by rewrite bool_decide_eq_true_2.
Qed.

Lemma lua_script_acquired A r T q :
  assignment_queue r = T :: q → GlobalSkipCount T r < K_disable →
  ¬ SkipCooldown T A r → Lock T r = None →
  lua_script A r =
    (TaskId T, with_locked (<[T := (A, 3600)]> (task_locked r)) (with_queue q r)).
Proof.
  intros Hq Hk Hs Hl. unfold lua_script, LPOP. rewrite Hq.
  change (default 0 (GET_global_skips T (with_queue q r)))
    with (GlobalSkipCount T r).
  rewrite bool_decide_eq_false_2 by (unfold K_disable in Hk; lia).
  unfold EXISTS_skipped; simpl.
  rewrite bool_decide_eq_false_2 by done.
  unfold SET_locked_NX_EX; simpl.
  unfold Lock, GET_locked in Hl.
  destruct (task_locked r !! T) eqn:E; [done|]. done.
Qed.

Lemma lua_script_locked A B r T q :
  assignment_queue r = T :: q → GlobalSkipCount T r < K_disable →
  ¬ SkipCooldown T A r → Lock T r = Some B →
  lua_script A r = (LOCKED, with_queue (q ++ [T]) r).
Proof.
  intros Hq Hk Hs Hl. unfold lua_script, LPOP. rewrite Hq.
  change (default 0 (GET_global_skips T (with_queue q r)))
    with (GlobalSkipCount T r).
  rewrite bool_decide_eq_false_2 by (unfold K_disable in Hk; lia).
  unfold EXISTS_skipped; simpl.
  rewrite bool_decide_eq_false_2 by done.
  unfold SET_locked_NX_EX; simpl.
  unfold Lock, GET_locked in Hl.
  destruct (task_locked r !! T) eqn:E; [done|]. done.
Qed.

(** C1. One run of the atomic script for agent [A]: on an empty queue it
    returns NONE and changes nothing; otherwise it pops the head [T] and
    - returns DISABLED, [T] not re-enqueued, when GlobalSkipCount(T) >= 5;
    - else pushes [T] to the tail and returns SKIPPED when
      SkipCooldown(T, A) exists;
    - else sets Lock(T) = A with a TTL of 3600 s and returns [T] when no
      lock on [T] exists;
    - else pushes [T] to the tail and returns LOCKED.
    Nothing else in the store changes. *)
Theorem C1_atomic_script (A : Z) (r : Redis) :
  (assignment_queue r = [] → lua_script A r = (Nil, r)) ∧
  (∀ T q, assignment_queue r = T :: q →
     (GlobalSkipCount T r >= K_disable →
        lua_script A r = (DISABLED, with_queue q r)) ∧
     (GlobalSkipCount T r < K_disable → SkipCooldown T A r →
        lua_script A r = (SKIPPED, with_queue (q ++ [T]) r)) ∧
     (GlobalSkipCount T r < K_disable → ¬ SkipCooldown T A r →
      Lock T r = None →
        lua_script A r =
          (TaskId T,
           with_locked (<[T := (A, 3600)]> (task_locked r)) (with_queue q r))) ∧
     (GlobalSkipCount T r < K_disable → ¬ SkipCooldown T A r →
      (∃ B, Lock T r = Some B) →
        lua_script A r = (LOCKED, with_queue (q ++ [T]) r))).
Proof.
  split; [apply lua_script_empty|].
  intros T q Hq. repeat split.
  - by apply lua_script_disabled.
  - by apply lua_script_skipped.
  - by apply lua_script_acquired.
  - intros ?? [B ?]. by eapply lua_script_locked.
Qed.

Lemma C1_atomic_script_witness :
  lua_script 7 Scenario.redis0 = (Nil, Scenario.redis0) ∧
  (lua_script 8 (redis Scenario.held)).1 = TaskId 102 ∧
  Lock 102 (lua_script 8 (redis Scenario.held)).2 = Some 8 ∧
  task_locked (lua_script 8 (redis Scenario.held)).2 !! 102 = Some (8, 3600).
Proof.
  split; [apply (C1_atomic_script 7 Scenario.redis0); reflexivity|].
  destruct (C1_atomic_script 8 (redis Scenario.held)) as [_ H].
  destruct (H 102 [] eq_refl) as (_ & _ & Hacq & _).
  rewrite Hacq.
  - repeat split; vm_compute; reflexivity.
  - vm_compute; reflexivity.
  - vm_compute. intros [x Hx]. discriminate Hx.
  - vm_compute; reflexivity.
Defined.

(** ** Authentication *)


(** ** Idempotent re-request *)

(** C9. While ActiveAssignment(A) exists, [request_task(A)] returns the
    stored assignment as it is and leaves the whole state as it was: no
    pop, no lock, no session row; so a second call returns the same reply. *)
Theorem C9_idempotent_request (now now' A : Z) (s : State) (d : TaskResponse) :
  ActiveAssignment A (redis s) = Some d →
  request_task_for_agent now A s = (Return d, s) ∧
  request_task_for_agent now' A (request_task_for_agent now A s).2
    = request_task_for_agent now A s.
Proof.
  intros H. unfold ActiveAssignment in H.
  assert (E : ∀ t, request_task_for_agent t A s = (Return d, s)).
  { intros t. unfold request_task_for_agent. by rewrite H. }
  split; [apply E|]. rewrite (E now). simpl. apply E.
Qed.

Lemma C9_idempotent_request_witness :
  request_task_for_agent 2 7 Scenario.held
    = (Return {| task_id := 101; audio_url := "/api/audio/stream/101/7";
                 duration := Some 90%float; metadata := [] |},
       Scenario.held) ∧
  request_task_for_agent 3 7 (request_task_for_agent 2 7 Scenario.held).2
    = request_task_for_agent 2 7 Scenario.held.
Proof.
  apply (C9_idempotent_request 2 3 7 Scenario.held). vm_compute; reflexivity.
Defined.

(** ** Ownership check *)

Lemma not_holder_true T A r : Lock T r ≠ Some A → not_holder T A r = true.
Proof.
  unfold Lock, not_holder. destruct (GET_locked T r) as [b|]; [|done].
  intros H. apply bool_decide_eq_true_2. congruence.
Qed.

Lemma not_holder_false T A r : Lock T r = Some A → not_holder T A r = false.
Proof.
  unfold Lock, not_holder. intros ->. apply bool_decide_eq_false_2. auto.
Qed.

(** C5. When Lock(T) is absent or held by another agent, submit and skip
    by [A] both answer 403 and leave the whole state as it was: nothing is
    sent to the task source, and counters, cooldowns, ledger, queue and
    locks are unchanged. *)
Theorem C5_forbidden_not_holder (now T A status_code : Z)
    (transcription : string) (reason : option string) (s : State) :
  Lock T (redis s) ≠ Some A →
  submit_transcription now T A transcription status_code s
    = (Raise (HTTPException 403 "Cannot submit for this task"), s) ∧
  skip_task now T A reason s
    = (Raise (HTTPException 403 "Cannot skip task not assigned to you"), s).
Proof.
  intros H. apply not_holder_true in H.
  unfold submit_transcription, skip_task. by rewrite H.
Qed.

Lemma C5_forbidden_not_holder_witness :
  submit_transcription 2 101 8 "hello" 201 Scenario.held
    = (Raise (HTTPException 403 "Cannot submit for this task"), Scenario.held) ∧
  skip_task 2 101 8 None Scenario.held
    = (Raise (HTTPException 403 "Cannot skip task not assigned to you"),
       Scenario.held).
Proof.
  apply (C5_forbidden_not_holder 2 101 8 201 "hello" None Scenario.held).
  vm_compute. discriminate.
Defined.

(** ** Upstream failure during submit *)

(** C4. When [A] holds Lock(T) and the task source answers the annotation
    request with a status outside 2xx, submit answers 500 and the
    coordination store, the process memory and the ledger are as before:
    Lock(T) = A, ActiveAssignment(A), the session rows and the queue are
    untouched. *)
Theorem C4_upstream_error (now T A status_code : Z) (transcription : string)
    (s : State) :
  Lock T (redis s) = Some A →
  ¬ (200 ≤ status_code < 300) →
  let out := submit_transcription now T A transcription status_code s in
  (∃ detail, out.1 = Raise (HTTPException 500 detail)) ∧
  redis out.2 = redis s ∧ mem out.2 = mem s ∧ db out.2 = db s ∧
  Lock T (redis out.2) = Some A ∧
  ActiveAssignment A (redis out.2) = ActiveAssignment A (redis s) ∧
  transcription_sessions (db out.2) = transcription_sessions (db s) ∧
  assignment_queue (redis out.2) = assignment_queue (redis s) ∧
  tasks (mem out.2) = tasks (mem s).
Proof.
  intros Hl Hc. simpl. unfold submit_transcription.
  rewrite (not_holder_false _ _ _ Hl).
  rewrite bool_decide_eq_true_2.
  2:{ intros Hin. apply Hc. apply elem_of_cons in Hin as [->|Hin]; [lia|].
      apply list_elem_of_singleton in Hin as ->. lia. }
  simpl. split; [by eexists|]. by repeat split.
Qed.

Lemma C4_upstream_error_witness :
  let out := submit_transcription 2 101 7 "hello" 503 Scenario.held in
  (∃ detail, out.1 = Raise (HTTPException 500 detail)) ∧
  redis out.2 = redis Scenario.held ∧ mem out.2 = mem Scenario.held ∧
  db out.2 = db Scenario.held ∧
  Lock 101 (redis out.2) = Some 7 ∧
  ActiveAssignment 7 (redis out.2) = ActiveAssignment 7 (redis Scenario.held) ∧
  transcription_sessions (db out.2) = transcription_sessions (db Scenario.held) ∧
  assignment_queue (redis out.2) = assignment_queue (redis Scenario.held) ∧
  tasks (mem out.2) = tasks (mem Scenario.held).
Proof.
  apply (C4_upstream_error 2 101 7 503 "hello" Scenario.held).
  - vm_compute; reflexivity.
  - lia.
Defined.

(** ** Resetting disabled tasks *)

Lemma reset_key_frame acc k :
  ∃ m, (reset_key acc k).2 = with_global_skips m acc.2.
Proof.
  unfold reset_key. destruct (GET_global_skips k acc.2) as [c|].
  - case_bool_decide; simpl.
    + by eexists.
    + exists (task_global_skips acc.2). by destruct acc as [? []].
  - exists (task_global_skips acc.2). by destruct acc as [? []].
Qed.

Lemma reset_fold_frame ks : ∀ acc,
  ∃ m, (foldl reset_key acc ks).2 = with_global_skips m acc.2.
Proof.
  induction ks as [|k ks IH]; intros acc; simpl.
  - exists (task_global_skips acc.2). by destruct acc as [? []].
  - destruct (IH (reset_key acc k)) as [m Hm].
    destruct (reset_key_frame acc k) as [m' Hm'].
    exists m. rewrite Hm, Hm'. done.
Qed.

Lemma reset_fold_lookup ks : ∀ acc T,
  task_global_skips (foldl reset_key acc ks).2 !! T =
    match task_global_skips acc.2 !! T with
    | Some (n, ttl) =>
        if bool_decide (T ∈ ks ∧ n >= 2) then None else Some (n, ttl)
    | None => None
    end.
Proof.
  induction ks as [|k ks IH]; intros [acc r] T; simpl.
  - by destruct (task_global_skips r !! T) as [[n ttl]|].
  - rewrite IH. unfold reset_key, GET_global_skips; simpl.
    destruct (task_global_skips r !! k) as [[c cttl]|] eqn:Ek; simpl.
    + case_bool_decide as Hc; simpl.
      * destruct (decide (T = k)) as [->|Hne].
        -- rewrite lookup_delete_eq, Ek.
           rewrite bool_decide_eq_true_2; [done|]. split; [left|done].
        -- rewrite lookup_delete_ne by done.
           destruct (task_global_skips r !! T) as [[n ttl]|]; [|done].
           apply (f_equal (λ b : bool, if b then None else Some (n, ttl))).
           apply bool_decide_ext. rewrite elem_of_cons. naive_solver.
      * destruct (task_global_skips r !! T) as [[n ttl]|] eqn:ET; [|done].
        apply (f_equal (λ b : bool, if b then None else Some (n, ttl))).
        apply bool_decide_ext. rewrite elem_of_cons.
        split; [naive_solver|]. intros [[->|?] ?]; [|done].
        rewrite Ek in ET. naive_solver.
    + destruct (task_global_skips r !! T) as [[n ttl]|] eqn:ET; [|done].
      apply (f_equal (λ b : bool, if b then None else Some (n, ttl))).
      apply bool_decide_ext. rewrite elem_of_cons.
      split; [naive_solver|]. intros [[->|?] ?]; [|done]. congruence.
Qed.

Lemma reset_fold_restored ks : ∀ acc T,
  T ∈ (foldl reset_key acc ks).1 ↔
  T ∈ acc.1 ∨ (T ∈ ks ∧ ∃ n ttl, task_global_skips acc.2 !! T = Some (n, ttl)
                              ∧ n >= 2).
Proof.
  induction ks as [|k ks IH]; intros [acc r] T; simpl.
  - split; [by left|]. intros [?|[H _]]; [done|by inversion H].
  - rewrite IH. unfold reset_key, GET_global_skips; simpl.
    destruct (task_global_skips r !! k) as [[c cttl]|] eqn:Ek; simpl.
    + case_bool_decide as Hc; simpl.
      * rewrite elem_of_app, list_elem_of_singleton, elem_of_cons.
        split.
        -- intros [[?| ->]|[Hin (n & ttl & Hl & Hn)]].
           ++ by left.
           ++ right. split; [by left|]. by exists c, cttl.
           ++ right. destruct (decide (T = k)) as [->|Hne].
              ** by rewrite lookup_delete_eq in Hl.
              ** rewrite lookup_delete_ne in Hl by done.
                 split; [by right|]. by exists n, ttl.
        -- intros [?|[[->|Hin] (n & ttl & Hl & Hn)]].
           ++ by left; left.
           ++ by left; right.
           ++ destruct (decide (T = k)) as [->|Hne]; [by left; right|].
              right. split; [done|]. exists n, ttl.
              by rewrite lookup_delete_ne by done.
      * rewrite elem_of_cons. split; [naive_solver|].
        intros [?|[[->|Hin] (n & ttl & Hl & Hn)]]; [by left| |naive_solver].
        rewrite Ek in Hl. naive_solver.
    + rewrite elem_of_cons. split; [naive_solver|].
      intros [?|[[->|Hin] (n & ttl & Hl & Hn)]]; [by left| |naive_solver].
      congruence.
Qed.

Lemma omap_nil_iff {A B} (f : A → option B) (l : list A) :
  (∀ x, x ∈ l → f x = None) → omap f l = [].
Proof.
  induction l as [|a l IH]; intros H; simpl; [done|].
  rewrite (H a) by left. apply IH. intros x Hx. apply H. by right.
Qed.

Lemma reset_disabled_tasks_unfold s :
  reset_disabled_tasks s =
    let keys := (map_to_list (task_global_skips (redis s))).*1 in
    let out := foldl reset_key ([], redis s) keys in
    ({| reset_count := Z.of_nat (length out.1); restored_tasks := out.1;
        sync_scheduled := bool_decide (Z.of_nat (length out.1) > 0) |},
     with_redis out.2 s).
Proof.
  unfold reset_disabled_tasks. simpl.
  by destruct (foldl reset_key _ _).
Qed.

Lemma elem_of_keys (m : gmap Z (Z * option Z)) T v :
  m !! T = Some v → T ∈ (map_to_list m).*1.
Proof.
  intros H. apply list_elem_of_fmap. exists (T, v). split; [done|].
  by apply elem_of_map_to_list.
Qed.

(** The claim of C7 fails at the state where agent 7 has skipped task 101
    once: the counter of 101 is 1, the reset keeps the key with its value
    and schedules no reconciliation. *)
Lemma C7_reset_keeps_counter_below_2 :
  let s := Scenario.skipped_once in
  let out := reset_disabled_tasks s in
  task_global_skips (redis s) !! 101 = Some (1, Some 86400) ∧
  task_global_skips (redis out.2) !! 101 = Some (1, Some 86400) ∧
  reset_count out.1 = 0 ∧
  sync_scheduled out.1 = false.
Proof. vm_compute. repeat split; reflexivity. Qed.

(** C7 (amended). [reset_disabled_tasks] deletes every GlobalSkipCount key
    whose counter is at least 2 and reports its task as restored; a key
    whose counter is below 2 is kept as it is; a reconciliation is scheduled
    exactly when at least one key was deleted; nothing else in the state
    changes.  After it returns no task is disabled: every remaining counter
    is below 5 and [get_disabled_tasks] is empty. *)
Theorem C7_reset_disabled (s : State) :
  let out := reset_disabled_tasks s in
  (∀ T n ttl, task_global_skips (redis s) !! T = Some (n, ttl) →
     (n >= 2 → task_global_skips (redis out.2) !! T = None
               ∧ T ∈ restored_tasks out.1) ∧
     (n < 2 → task_global_skips (redis out.2) !! T = Some (n, ttl)
              ∧ T ∉ restored_tasks out.1)) ∧
  (sync_scheduled out.1 = true ↔
     ∃ T n ttl, task_global_skips (redis s) !! T = Some (n, ttl) ∧ n >= 2) ∧
  (∀ T, ¬ disabled T (redis out.2)) ∧
  get_disabled_tasks (redis out.2) = [] ∧
  (∃ m, out.2 = with_redis (with_global_skips m (redis s)) s).
Proof.
  rewrite reset_disabled_tasks_unfold. simpl.
  set (keys := (map_to_list (task_global_skips (redis s))).*1).
  set (res := foldl reset_key ([], redis s) keys).
  assert (Hlook : ∀ T, task_global_skips res.2 !! T =
            match task_global_skips (redis s) !! T with
            | Some (n, ttl) => if bool_decide (n >= 2) then None else Some (n, ttl)
            | None => None
            end).
  { intros T. unfold res. rewrite reset_fold_lookup. simpl.
    destruct (task_global_skips (redis s) !! T) as [[n ttl]|] eqn:E; [|done].
    apply (f_equal (λ b : bool, if b then None else Some (n, ttl))).
    apply bool_decide_ext. split; [naive_solver|]. intros ?. split; [|done].
    by eapply elem_of_keys. }
  assert (Hres : ∀ T, T ∈ res.1 ↔
            ∃ n ttl, task_global_skips (redis s) !! T = Some (n, ttl) ∧ n >= 2).
  { intros T. unfold res. rewrite reset_fold_restored. simpl. split.
    - intros [H|[_ H]]; [by inversion H|done].
    - intros (n & ttl & Hl & Hn). right. split; [by eapply elem_of_keys|].
      by exists n, ttl. }
  assert (Hlow : ∀ T, GlobalSkipCount T res.2 < 2).
  { intros T. unfold GlobalSkipCount, GET_global_skips. rewrite Hlook.
    destruct (task_global_skips (redis s) !! T) as [[n ttl]|]; simpl; [|lia].
    case_bool_decide; simpl; lia. }
  split; [|split; [split|split; [|split]]].
  - intros T n ttl H. split; intros Hn; split.
    + rewrite Hlook, H. by rewrite bool_decide_eq_true_2.
    + apply Hres. by exists n, ttl.
    + rewrite Hlook, H. by rewrite bool_decide_eq_false_2 by lia.
    + rewrite Hres. intros (n' & ttl' & Hl & Hn'). simplify_eq. lia.
  - intros Hs. apply bool_decide_eq_true_1 in Hs.
    destruct res.1 as [|T l] eqn:E; [simpl in Hs; lia|].
    destruct (proj1 (Hres T)) as (n & ttl & ? & ?); [left|].
    by exists T, n, ttl.
  - intros (T & n & ttl & Hl & Hn). apply bool_decide_eq_true_2.
    assert (Hin : T ∈ res.1) by (apply Hres; by exists n, ttl).
    destruct res.1; [by inversion Hin|]. simpl. lia.
  - intros T. unfold disabled, K_disable. specialize (Hlow T). lia.
  - unfold get_disabled_tasks. rewrite omap_nil_iff; [done|].
    intros [T [n ttl]] Hin. apply elem_of_map_to_list in Hin. simpl.
    specialize (Hlow T). unfold GlobalSkipCount, GET_global_skips in Hlow.
    rewrite Hin in Hlow. simpl in Hlow.
    by rewrite bool_decide_eq_false_2 by lia.
  - destruct (reset_fold_frame keys ([], redis s)) as [m Hm].
    exists m. fold res in Hm. by rewrite Hm.
Qed.

(** ** Ledger accounting of a submit *)

Lemma is_assigned_to_spec A T x :
  is_assigned_to A T x = true ↔
  agent_id x = A ∧ ts_task_id x = T ∧ status x = assigned.
Proof.
  unfold is_assigned_to. rewrite !andb_true_iff, !bool_decide_eq_true.
  naive_solver.
Qed.

(** Flipping the assigned rows of (A, T) to completed adds as many
    completed rows of [A] as there were such assigned rows. *)
Lemma completed_rows_flip now len A T (l : list TranscriptionSession) :
  length (filter (λ x, agent_id x = A ∧ status x = completed)
            ((λ x, if is_assigned_to A T x then complete_session now len x else x)
               <$> l)) =
  (length (filter (λ x, agent_id x = A ∧ status x = completed) l)
   + length (filter (λ x, is_assigned_to A T x = true) l))%nat.
Proof.
  induction l as [|x l IH]; [done|].
  rewrite fmap_cons, !filter_cons.
  destruct (is_assigned_to A T x) eqn:E.
  - apply is_assigned_to_spec in E as (Ha & Ht & Hs).
    rewrite decide_True by (by simpl).
    rewrite (decide_False (P := agent_id x = A ∧ status x = completed))
      by (rewrite Hs; intros [_ ?]; discriminate).
    rewrite decide_True by done. simpl. rewrite IH. lia.
  - rewrite (decide_False (P := false = true)) by discriminate.
    destruct (decide (agent_id x = A ∧ status x = completed)); simpl;
      rewrite IH; lia.
Qed.

Lemma submit_success (now T A status_code : Z) (transcription : string) s :
  Lock T (redis s) = Some A → status_code ∈ [200; 201] →
  submit_transcription now T A transcription status_code s =
    (Return "Transcription submitted successfully",
     remove_task_from_queue T
       (with_redis
          (let r1 := DEL_active A (DEL_locked T (redis s)) in
           with_audit_completions
             ((A, T, now, Z.of_nat (String.length transcription))
                :: audit_completions r1) r1)
          (with_db (complete_in_ledger now A T
                      (Z.of_nat (String.length transcription)) (db s))
             (with_ls (post_annotation T transcription (ls s)) s)))).
Proof.
  intros Hl Hc. unfold submit_transcription.
  rewrite (not_holder_false _ _ _ Hl).
  by rewrite bool_decide_eq_false_2 by (intros H; by apply H).
Qed.

(** The claim of C6 fails when (A, T) has duplicate 'assigned' rows: agent 7
    abandoned task 101, was assigned it again an hour later and submits.
    Both rows become 'completed' while the aggregate counts one task. *)
Lemma C6_duplicate_rows_counted_once :
  let out := submit_transcription 3800 101 7 "hello" 200 Scenario.resumed in
  out.1 = Return "Transcription submitted successfully" ∧
  completed_rows 7 (db Scenario.resumed) = 0 ∧
  (total_tasks_completed <$> agent_stats (db Scenario.resumed) !! 7) = Some 0 ∧
  completed_rows 7 (db out.2) = 2 ∧
  (total_tasks_completed <$> agent_stats (db out.2) !! 7) = Some 1.
Proof. vm_compute. repeat split; reflexivity. Qed.

(** A session without a duration: agent 7 submits task 102, whose duration
    the task source does not know.  The row becomes 'completed' and the
    aggregate of agent 7 is left as it was. *)
Example submit_without_duration :
  let out := submit_transcription 4 102 7 "hello" 200 Scenario.holds_102 in
  out.1 = Return "Transcription submitted successfully" ∧
  completed_rows 7 (db out.2) = completed_rows 7 (db Scenario.holds_102) + 1 ∧
  agent_stats (db out.2) !! 7 = agent_stats (db Scenario.holds_102) !! 7.
Proof. vm_compute. repeat split; reflexivity. Qed.

(** C6 (amended). A successful submit(A, T, text) that finds 'assigned'
    rows of (A, T), the last of them with a non-zero duration [d], and an
    aggregate row of [A], updates that aggregate by exactly +1 task, +[d]
    seconds and +([d]/60)*0.45 earnings, once, however many rows it finds;
    no other aggregate changes; and the number of 'completed' rows of [A]
    grows by the number of rows found, so the two counts advance together
    exactly when there is one such row. *)
Theorem C6_aggregate_update (now T A status_code : Z) (transcription : string)
    (s : State) (x : TranscriptionSession) (d : float) (a : AgentStats) :
  Lock T (redis s) = Some A →
  status_code ∈ [200; 201] →
  last (filter (λ x, is_assigned_to A T x = true)
          (transcription_sessions (db s))) = Some x →
  truthy (duration_seconds x) = Some d →
  agent_stats (db s) !! A = Some a →
  let out := submit_transcription now T A transcription status_code s in
  out.1 = Return "Transcription submitted successfully" ∧
  (∃ a', agent_stats (db out.2) !! A = Some a' ∧
     total_tasks_completed a' = total_tasks_completed a + 1 ∧
     total_duration_seconds a' = (total_duration_seconds a + d)%float ∧
     total_earnings a' = (total_earnings a + (d / 60) * 0.45)%float ∧
     total_tasks_skipped a' = total_tasks_skipped a) ∧
  (∀ B, B ≠ A → agent_stats (db out.2) !! B = agent_stats (db s) !! B) ∧
  completed_rows A (db out.2) =
    completed_rows A (db s)
    + Z.of_nat (length (filter (λ x, is_assigned_to A T x = true)
                          (transcription_sessions (db s)))).
Proof.
  intros Hl Hc Hlast Hd Ha. simpl.
  rewrite (submit_success _ _ _ _ _ _ Hl Hc). simpl.
  unfold complete_in_ledger. rewrite Hlast, Ha, Hd.
  split; [done|]. split; [|split].
  - exists (add_completion now d a). simpl.
    by rewrite lookup_insert_eq.
  - intros B HB. simpl. by rewrite lookup_insert_ne.
  - unfold completed_rows. simpl. rewrite completed_rows_flip. lia.
Qed.

Lemma C6_aggregate_update_witness :
  let out := submit_transcription 2 101 7 "hello" 201 Scenario.held in
  out.1 = Return "Transcription submitted successfully" ∧
  (∃ a', agent_stats (db out.2) !! 7 = Some a' ∧
     total_tasks_completed a' = 0 + 1 ∧
     total_duration_seconds a' = (0 + 90)%float ∧
     total_earnings a' = (0 + (90 / 60) * 0.45)%float ∧
     total_tasks_skipped a' = 0) ∧
  (∀ B, B ≠ 7 → agent_stats (db out.2) !! B
                = agent_stats (db Scenario.held) !! B) ∧
  completed_rows 7 (db out.2) = completed_rows 7 (db Scenario.held) + 1.
Proof.
  apply (C6_aggregate_update 2 101 7 201 "hello" Scenario.held
           {| agent_id := 7; ts_task_id := 101; assigned_at := 1;
              completed_at := None; duration_seconds := Some 90%float;
              status := assigned; transcription_length := None;
              skip_reason := None |}
           90%float
           {| total_duration_seconds := 0; total_tasks_completed := 0;
              total_tasks_skipped := 0; total_earnings := 0;
              last_active := Some 1 |}).
  - vm_compute; reflexivity.
  - right; left.
  - vm_compute; reflexivity.
  - vm_compute; reflexivity.
  - vm_compute; reflexivity.
Defined.

(** ** Frame lemmas: what each step reads and writes *)

Lemma with_queue_id r : with_queue (assignment_queue r) r = r.
Proof. by destruct r. Qed.

Lemma execute_rpush_eq pipeline : ∀ r,
  execute_rpush pipeline r = with_queue (assignment_queue r ++ pipeline) r.
Proof.
  unfold execute_rpush.
  induction pipeline as [|x p IH]; intros r; simpl.
  - by rewrite app_nil_r, with_queue_id.
  - rewrite IH. unfold RPUSH, with_queue; simpl. by rewrite <- app_assoc.
Qed.

Lemma rebuild_queue_eq fresh r : rebuild_queue fresh r = with_queue fresh r.
Proof.
  unfold rebuild_queue. change (foldl _ ?a ?l) with (execute_rpush l a).
  by rewrite execute_rpush_eq.
Qed.


Lemma lua_script_task A r T r' :
  lua_script A r = (TaskId T, r') →
  T ∈ assignment_queue r ∧ GlobalSkipCount T r < K_disable ∧
  ¬ SkipCooldown T A r ∧ Lock T r = None ∧ Lock T r' = Some A.
Proof.
  unfold lua_script, LPOP. destruct (assignment_queue r) as [|T' q] eqn:Hq.
  - discriminate.
  - change (default 0 (GET_global_skips T' (with_queue q r)))
      with (GlobalSkipCount T' r).
    case_bool_decide as Hk; [discriminate|].
    unfold EXISTS_skipped; simpl.
    case_bool_decide as Hs; [discriminate|].
    unfold SET_locked_NX_EX; simpl.
    destruct (task_locked r !! T') as [v|] eqn:El; [discriminate|].
    intros [= -> <-]. unfold K_disable, Lock, GET_locked; simpl.
    rewrite El, lookup_insert_eq. repeat split; [left|lia|done].
Qed.

Lemma list_remove_subseteq x l l' :
  list_remove x l = Some l' → ∀ y, y ∈ l' → y ∈ l.
Proof.
  revert l'. induction l as [|a l IH]; intros l'; simpl; [discriminate|].
  case_decide.
  - intros [= ->] y Hy. by right.
  - destruct (list_remove x l) as [l0|]; [|discriminate].
    intros [= <-] y Hy. apply elem_of_cons in Hy as [->|Hy]; [left|].
    right. by eapply IH.
Qed.

Lemma transfer_frame ids : ∀ pipeline m x m',
  transfer ids pipeline m = (x, m') →
  m' = with_tasks (tasks m') m ∧
  (∀ y, y ∈ tasks m' → y ∈ tasks m) ∧
  (∀ p, x = Return p → ∀ y, y ∈ p → y ∈ pipeline ∨ y ∈ ids).
Proof.
  induction ids as [|i ids IH]; intros pipeline m x m'; simpl.
  - intros [= <- <-]. split; [by destruct m|]. split; [done|].
    intros p [= <-] y Hy. by left.
  - destruct (list_remove i (tasks m)) as [l|] eqn:El.
    + intros H. apply IH in H as (Hm & Hsub & Hp). split; [|split].
      * rewrite Hm at 1. done.
      * intros y Hy. apply Hsub in Hy. simpl in Hy.
        by eapply list_remove_subseteq.
      * intros p Hx y Hy. destruct (Hp p Hx y Hy) as [Hin|Hin].
        -- apply elem_of_app in Hin as [?|Hin]; [by left|].
           apply list_elem_of_singleton in Hin as ->. right; left.
        -- right; by right.
    + intros [= <- <-]. split; [by destruct m|]. split; [done|]. discriminate.
Qed.

Lemma refill_frame avail s x s' :
  refill avail s = (x, s') →
  db s' = db s ∧ ls s' = ls s ∧
  redis s' = with_queue (assignment_queue (redis s')) (redis s) ∧
  mem s' = with_tasks (tasks (mem s')) (mem s) ∧
  (∀ y, y ∈ tasks (mem s') → y ∈ tasks (mem s)) ∧
  (∀ y, y ∈ assignment_queue (redis s') →
        y ∈ assignment_queue (redis s) ∨ y ∈ avail).
Proof.
  unfold refill. case_bool_decide.
  - destruct (transfer _ _ _) as [[p|e] m] eqn:Et;
      apply transfer_frame in Et as (Hm & Hsub & Hp); intros [= <- <-]; simpl.
    + rewrite execute_rpush_eq. simpl. repeat split; try done.
      intros y Hy. apply elem_of_app in Hy as [?|Hy]; [by left|].
      right. destruct (Hp p eq_refl y Hy) as [Hin|Hin]; [by inversion Hin|].
      by apply (subseteq_take 10 avail).
    + rewrite with_queue_id. repeat split; try done. intros y ?; by left.
  - intros [= <- <-]. rewrite with_queue_id. repeat split; try done.
    + by destruct (mem s).
    + intros y ?; by left.
Qed.

Lemma assign_frame now A T s :
  (assign now A T s).1.(task_id) = T ∧
  mem (assign now A T s).2 = mem s ∧ ls (assign now A T s).2 = ls s ∧
  assignment_queue (redis (assign now A T s).2) = assignment_queue (redis s) ∧
  task_global_skips (redis (assign now A T s).2) = task_global_skips (redis s) ∧
  task_locked (redis (assign now A T s).2) = task_locked (redis s) ∧
  task_skipped (redis (assign now A T s).2) = task_skipped (redis s) ∧
  agent_active (redis (assign now A T s).2) =
    <[A := ((assign now A T s).1, 3600)]> (agent_active (redis s)).
Proof. by repeat split. Qed.

Lemma sync_cases now s :
  sync_assignment_queue now s = s ∨
  ∃ ids, unlabeled_tasks (ls s) = Some ids ∧
    let fresh := filter (λ id, id ∉ completed_tasks (mem s)) ids in
    redis (sync_assignment_queue now s) = with_queue fresh (redis s) ∧
    tasks (mem (sync_assignment_queue now s)) = fresh ∧
    completed_tasks (mem (sync_assignment_queue now s)) = completed_tasks (mem s) ∧
    project (mem (sync_assignment_queue now s)) = project (mem s) ∧
    db (sync_assignment_queue now s) = db s ∧
    ls (sync_assignment_queue now s) = ls s.
Proof.
  unfold sync_assignment_queue.
  destruct (syncing (mem s)) eqn:Hs; [by left|]. simpl.
  destruct (project (mem s)) eqn:Hp.
  - destruct (unlabeled_tasks (ls s)) as [ids|] eqn:Hu.
    + right. exists ids. split; [done|]. simpl.
      rewrite rebuild_queue_eq. by repeat split.
    + left. destruct s as [r m d l]; simpl in *.
      destruct m; simpl in *. by subst.
  - left. destruct s as [r m d l]; simpl in *.
    destruct m; simpl in *. by subst.
Qed.

Lemma ensure_available_cases now s :
  ∃ s1, ensure_available now s = (tasks (mem s1), s1) ∧
    (s1 = s ∨ s1 = sync_assignment_queue now s ∨
     s1 = sync_assignment_queue now (sync_assignment_queue now s)).
Proof.
  unfold ensure_available, get_available_task_ids.
  destruct (tasks (mem s)) as [|t l] eqn:E0.
  - destruct (tasks (mem (sync_assignment_queue now s))) as [|t l] eqn:E1.
    + destruct (project _).
      * destruct (unlabeled_tasks _) as [[|]|];
          [exists (sync_assignment_queue now s); rewrite E1; auto
          |eexists; split; [reflexivity|auto]
          |exists (sync_assignment_queue now s); rewrite E1; auto].
      * exists (sync_assignment_queue now s); rewrite E1; auto.
    + exists (sync_assignment_queue now s); rewrite E1; auto.
  - exists s; rewrite E0; auto.
Qed.

(** ** Invariants of the assignment loop and of call sequences *)

Lemma attempts_S n now A available_task_ids s :
  attempts (S n) now A available_task_ids s =
    match refill available_task_ids s with
    | (Raise e, s1) => (Raise e, s1)
    | (Return _, s1) =>
        match lua_script A (redis s1) with
        | (Nil, r) => (Raise (exhausted A), with_redis r s1)
        | (SKIPPED, r) | (LOCKED, r) | (DISABLED, r) =>
            attempts n now A available_task_ids (with_redis r s1)
        | (TaskId T, r) =>
            (Return (assign now A T (with_redis r s1)).1,
             (assign now A T (with_redis r s1)).2)
        end
    end.
Proof. reflexivity. Qed.

Arguments attempts : simpl never.
Arguments assign : simpl never.

Section Invariant.

Variable P : State → Prop.
Variable Q : Z → Prop.

(** A stored assignment satisfies [Q]. *)
Hypothesis P_active : ∀ s A d,
  P s → GET_active A (redis s) = Some d → Q (task_id d).
Hypothesis P_sync : ∀ now s, P s → P (sync_assignment_queue now s).
(** The refill uses a copy of the in-memory list taken in a [P]-state. *)
Hypothesis P_refill : ∀ s0 s x s',
  P s0 → P s → refill (tasks (mem s0)) s = (x, s') → P s'.
Hypothesis P_script : ∀ A s rep r,
  P s → lua_script A (redis s) = (rep, r) →
  P (with_redis r s) ∧ (∀ T, rep = TaskId T → Q T).
Hypothesis P_assign : ∀ now A s T, P s → Q T → P (assign now A T s).2.




Variable allowed : Event → Prop.
Hypothesis P_submit : ∀ now T A text code s,
  allowed (Submit now T A text code) → P s →
  P (submit_transcription now T A text code s).2.
Hypothesis P_skip : ∀ now T A reason s,
  allowed (Skip now T A reason) → P s → P (skip_task now T A reason s).2.
Hypothesis P_reset : ∀ s,
  allowed ResetDisabled → P s → P (reset_disabled_tasks s).2.
Hypothesis P_expire : ∀ k s,
  allowed (Expire k) → P s → P (with_redis (expire k (redis s)) s).
Hypothesis P_upstream : ∀ answers s, P s → P (with_ls answers s).



End Invariant.

(** ** Disabled tasks stay out of circulation *)














(** A disabled task can still be returned by the idempotent branch: agent
    5 holds task 400, skipped four times so far, when its lock expires;
    agent 6 is assigned 400 and skips it, which disables it; the next
    request of agent 5 returns its stored assignment, task 400. *)
Example disabled_task_of_stale_assignment :
  let cs := [Request 1 1; Skip 2 400 1 None; Request 3 2; Skip 4 400 2 None;
             Request 5 3; Skip 6 400 3 None; Request 7 4; Skip 8 400 4 None;
             Request 9 5; Expire (KLocked 400); Sync 3609; Request 3610 6;
             Skip 3611 400 6 None] in
  let s := (run cs (Scenario.boot [400])).2 in
  GlobalSkipCount 400 (redis s) = 5 ∧
  task_id <$> ActiveAssignment 5 (redis s) = Some 400 ∧
  (step (Request 3612 5) s).1
    = Assigned {| task_id := 400; audio_url := "/api/audio/stream/400/5";
                  duration := None; metadata := [] |}.
Proof. vm_compute. repeat split; reflexivity. Qed.



(** ** Completed tasks are never handed out again *)








Lemma skip_task_frame now T A reason s :
  let s' := (skip_task now T A reason s).2 in
  mem s' = mem s ∧ ls s' = ls s ∧
  assignment_queue (redis s') = assignment_queue (redis s) ∧
  (agent_active (redis s') = agent_active (redis s) ∨
   agent_active (redis s') = delete A (agent_active (redis s))).
Proof.
  simpl. unfold skip_task.
  destruct (not_holder T A (redis s)); [by repeat split; try left|].
  unfold INCR_global_skips; simpl.
  destruct (task_global_skips (redis s) !! T) as [[n ttl]|];
    case_bool_decide; simpl; repeat split; by right.
Qed.












(** ** Outcomes of a request without active assignment *)












(** The refill of a later iteration reads the same copy of the in-memory
    list as the first one: after agents 1 to 5 have disabled task 400, the
    request of agent 6 refills the store with 400, pops and drops it, finds
    the store empty again and fails in [list.remove]; the reply is a 500. *)
Example second_refill_raises :
  request_task_for_agent 11 6 Scenario.five_skips
    = (Raise (HTTPException 500 "list.remove(x): x not in list"),
       with_mem (with_tasks [] (mem Scenario.five_skips)) Scenario.five_skips).
Proof. vm_compute. reflexivity. Qed.



(** * Further properties of the handlers *)

(** ** What a request leaves behind *)

Lemma same_but_queue_refl s : same_but_queue s s.
Proof.
  repeat split. exists (assignment_queue (redis s)). by rewrite with_queue_id.
Qed.

Lemma same_but_queue_trans s1 s2 s3 :
  same_but_queue s1 s2 → same_but_queue s2 s3 → same_but_queue s1 s3.
Proof.
  intros (Hd & Hl & q & Hq) (Hd' & Hl' & q' & Hq').
  repeat split; [congruence|congruence|].
  exists q'. rewrite Hq', Hq. done.
Qed.

Lemma same_but_queue_sync now s : same_but_queue s (sync_assignment_queue now s).
Proof.
  destruct (sync_cases now s) as [->|(ids & _ & Hr & _ & _ & _ & Hd & Hl)].
  - apply same_but_queue_refl.
  - repeat split; [done|done|]. by eexists.
Qed.

Lemma same_but_queue_ensure now s :
  same_but_queue s (ensure_available now s).2.
Proof.
  destruct (ensure_available_cases now s) as (s1 & -> & [->|[->| ->]]); simpl.
  - apply same_but_queue_refl.
  - apply same_but_queue_sync.
  - eapply same_but_queue_trans; apply same_but_queue_sync.
Qed.

Lemma same_but_queue_refill avail s x s' :
  refill avail s = (x, s') → same_but_queue s s'.
Proof.
  intros H. apply refill_frame in H as (Hd & Hl & Hr & _).
  repeat split; [done|done|]. by eexists.
Qed.

(** The script either answers a task or touches the queue alone. *)
Lemma lua_script_queue_only A r :
  (∃ T, (lua_script A r).1 = TaskId T) ∨
  (∃ q, (lua_script A r).2 = with_queue q r).
Proof.
  unfold lua_script, LPOP. destruct (assignment_queue r) as [|T q] eqn:Hq.
  - right. exists []. simpl. by rewrite <- Hq, with_queue_id.
  - case_bool_decide; [right; by eexists|].
    destruct (EXISTS_skipped _ _ _); [right; by eexists|].
    unfold SET_locked_NX_EX; simpl.
    destruct (task_locked r !! T); [right; by eexists|left; by eexists].
Qed.

Lemma same_but_queue_script A s rep r :
  lua_script A (redis s) = (rep, r) → (∀ T, rep ≠ TaskId T) →
  same_but_queue s (with_redis r s).
Proof.
  intros Hl Hrep. repeat split.
  destruct (lua_script_queue_only A (redis s)) as [[T HT]|[q Hq]].
  - rewrite Hl in HT. simpl in HT. by destruct (Hrep T).
  - rewrite Hl in Hq. simpl in Hq. by exists q.
Qed.

(** The loop either fails, leaving all but the queue and the in-memory list
    as they were, or ends with one run of the script that locks a task,
    followed by the bookkeeping of the assignment. *)
Lemma attempts_outcome now A avail : ∀ n s,
  match attempts n now A avail s with
  | (Raise _, s') => same_but_queue s s'
  | (Return d, s') =>
      ∃ s2 r T, same_but_queue s s2 ∧
                lua_script A (redis s2) = (TaskId T, r) ∧
                assign now A T (with_redis r s2) = (d, s')
  end.
Proof.
  induction n as [|n IH]; intros s; [apply same_but_queue_refl|].
  rewrite attempts_S.
  destruct (refill avail s) as [[[]|e] s1] eqn:Er;
    [|by eapply same_but_queue_refill].
  apply same_but_queue_refill in Er.
  destruct (lua_script A (redis s1)) as [rep r] eqn:El.
  assert (Hq : (∀ T, rep ≠ TaskId T) → same_but_queue s (with_redis r s1)).
  { intros H. eapply same_but_queue_trans; [exact Er|].
    by eapply same_but_queue_script. }
  destruct rep as [| | | |T].
  - by apply Hq.
  - specialize (IH (with_redis r s1)).
    destruct (attempts n now A avail (with_redis r s1)) as [[d|e] s'].
    + destruct IH as (s2 & r2 & T & H1 & H2 & H3).
      exists s2, r2, T. split; [|done].
      eapply same_but_queue_trans; [by apply Hq|done].
    + eapply same_but_queue_trans; [by apply Hq|done].
  - specialize (IH (with_redis r s1)).
    destruct (attempts n now A avail (with_redis r s1)) as [[d|e] s'].
    + destruct IH as (s2 & r2 & T & H1 & H2 & H3).
      exists s2, r2, T. split; [|done].
      eapply same_but_queue_trans; [by apply Hq|done].
    + eapply same_but_queue_trans; [by apply Hq|done].
  - specialize (IH (with_redis r s1)).
    destruct (attempts n now A avail (with_redis r s1)) as [[d|e] s'].
    + destruct IH as (s2 & r2 & T & H1 & H2 & H3).
      exists s2, r2, T. split; [|done].
      eapply same_but_queue_trans; [by apply Hq|done].
    + eapply same_but_queue_trans; [by apply Hq|done].
  - exists s1, r, T. split; [done|]. split; [done|].
    by destruct (assign now A T (with_redis r s1)).
Qed.

Lemma request_outcome now A s :
  match request_task_for_agent now A s with
  | (Raise _, s') => same_but_queue s s'
  | (Return d, s') =>
      (ActiveAssignment A (redis s) = Some d ∧ s' = s) ∨
      (ActiveAssignment A (redis s) = None ∧
       ∃ s2 r T, same_but_queue s s2 ∧
                 lua_script A (redis s2) = (TaskId T, r) ∧
                 assign now A T (with_redis r s2) = (d, s'))
  end.
Proof.
  unfold request_task_for_agent, ActiveAssignment.
  destruct (GET_active A (redis s)) as [d|] eqn:Ea; [by left|].
  pose proof (same_but_queue_ensure now s) as Hpre.
  destruct (ensure_available now s) as [avail s1]. simpl in Hpre.
  destruct avail as [|t l]; [done|].
  pose proof (attempts_outcome now A (t :: l) max_attempts s1) as Hat.
  destruct (attempts max_attempts now A (t :: l) s1) as [[d|e] s'].
  - destruct Hat as (s2 & r & T & H1 & H2 & H3). right. split; [done|].
    exists s2, r, T. split; [|done]. by eapply same_but_queue_trans.
  - assert (same_but_queue s s') by by eapply same_but_queue_trans.
    by destruct e.
Qed.

Lemma lua_script_task_state A r T r' :
  lua_script A r = (TaskId T, r') →
  ∃ q, r' = with_locked (<[T := (A, 3600)]> (task_locked r)) (with_queue q r).
Proof.
  unfold lua_script, LPOP. destruct (assignment_queue r) as [|T' q] eqn:Hq.
  - discriminate.
  - case_bool_decide; [discriminate|].
    destruct (EXISTS_skipped _ _ _); [discriminate|].
    unfold SET_locked_NX_EX; simpl.
    destruct (task_locked r !! T'); [discriminate|].
    intros [= <- <-]. by exists q.
Qed.

Lemma request_fresh (now A : Z) (s s' : State) (d : TaskResponse) :
  ActiveAssignment A (redis s) = None →
  request_task_for_agent now A s = (Return d, s') →
  Lock (task_id d) (redis s) = None ∧
  ¬ SkipCooldown (task_id d) A (redis s) ∧
  GlobalSkipCount (task_id d) (redis s) < K_disable ∧
  task_locked (redis s') = <[task_id d := (A, 3600)]> (task_locked (redis s)) ∧
  agent_active (redis s') = <[A := (d, 3600)]> (agent_active (redis s)) ∧
  task_skipped (redis s') = task_skipped (redis s) ∧
  task_global_skips (redis s') = task_global_skips (redis s) ∧
  audio_url d
    = "/api/audio/stream/" +:+ pretty (task_id d) +:+ "/" +:+ pretty A ∧
  transcription_sessions (db s') =
    transcription_sessions (db s) ++
      [{| agent_id := A; ts_task_id := task_id d; assigned_at := now;
          completed_at := None; duration_seconds := duration d;
          status := assigned; transcription_length := None;
          skip_reason := None |}].
Proof.
  intros Ha Hr. pose proof (request_outcome now A s) as Ho. rewrite Hr in Ho.
  destruct Ho as [[Ha' _]|(_ & s2 & r & T & (Hd & Hl & q & Hq) & Hs & Has)];
    [congruence|].
  pose proof (lua_script_task _ _ _ _ Hs) as (_ & Hk & Hc & Hlk & _).
  apply lua_script_task_state in Hs as [q' ->].
  rewrite Hq in Hk, Hc, Hlk.
  assert (Hd' : d = (assign now A T
                       (with_redis
                          (with_locked (<[T:=(A, 3600)]> (task_locked (redis s2)))
                             (with_queue q' (redis s2))) s2)).1)
    by by rewrite Has.
  assert (Hs' : s' = (assign now A T
                        (with_redis
                           (with_locked (<[T:=(A, 3600)]> (task_locked (redis s2)))
                              (with_queue q' (redis s2))) s2)).2)
    by by rewrite Has.
  assert (HT : task_id d = T) by by rewrite Hd'.
  rewrite HT. split; [exact Hlk|]. split; [exact Hc|]. split; [exact Hk|].
  rewrite Hs'. unfold assign. simpl. rewrite Hq, Hd, Hl. simpl.
  repeat split; try done; rewrite Hd'; unfold assign; simpl;
    by rewrite ?Hl.
Qed.

(** X1. A request that assigns a task anew: the task was free, not in cooldown
    for the agent and not disabled; the request sets its lock and the
    active assignment of the agent, both for 3600 s, adds one 'assigned'
    row at the end of the ledger, and changes no other lock, assignment,
    cooldown or counter. *)
Theorem request_fresh_assignment (now A : Z) (s s' : State) (d : TaskResponse) :
  ActiveAssignment A (redis s) = None →
  request_task_for_agent now A s = (Return d, s') →
  Lock (task_id d) (redis s) = None ∧
  ¬ SkipCooldown (task_id d) A (redis s) ∧
  GlobalSkipCount (task_id d) (redis s) < K_disable ∧
  task_locked (redis s') = <[task_id d := (A, 3600)]> (task_locked (redis s)) ∧
  agent_active (redis s') = <[A := (d, 3600)]> (agent_active (redis s)) ∧
  task_skipped (redis s') = task_skipped (redis s) ∧
  task_global_skips (redis s') = task_global_skips (redis s) ∧
  audio_url d
    = "/api/audio/stream/" +:+ pretty (task_id d) +:+ "/" +:+ pretty A ∧
  transcription_sessions (db s') =
    transcription_sessions (db s) ++
      [{| agent_id := A; ts_task_id := task_id d; assigned_at := now;
          completed_at := None; duration_seconds := duration d;
          status := assigned; transcription_length := None;
          skip_reason := None |}].
Proof. apply request_fresh. Qed.


Lemma request_cooldown now A T s s' d :
  SkipCooldown T A (redis s) →
  request_task_for_agent now A s = (Return d, s') →
  task_id d = T →
  ActiveAssignment A (redis s) = Some d.
Proof.
  intros Hc Hr HT. pose proof (request_outcome now A s) as Ho.
  rewrite Hr in Ho.
  destruct Ho as [[H _]|(_ & s2 & r & T' & (_ & _ & q & Hq) & Hs & Has)];
    [done|].
  exfalso.
  pose proof (lua_script_task _ _ _ _ Hs) as (_ & _ & Hnc & _).
  assert (task_id d = T') by (by replace d with
    (assign now A T' (with_redis r s2)).1 by (by rewrite Has)).
  subst. apply Hnc. by rewrite Hq.
Qed.

Lemma request_fresh_assignment_witness :
  Lock 101 (redis (Scenario.boot [101; 102])) = None ∧
  task_locked (redis Scenario.held) !! 101 = Some (7, 3600).
Proof.
  destruct (request_fresh_assignment 1 7 (Scenario.boot [101; 102])
              Scenario.held
              {| task_id := 101; audio_url := "/api/audio/stream/101/7";
                 duration := Some 90%float; metadata := [] |})
    as (H1 & _ & _ & H4 & _).
  - vm_compute; reflexivity.
  - vm_compute; reflexivity.
  - split; [exact H1|]. rewrite H4. apply lookup_insert_eq.
Defined.


(** ** Locks *)

Lemma request_locks now A s T :
  task_locked (redis (request_task_for_agent now A s).2) !! T
    = task_locked (redis s) !! T ∨
  (task_locked (redis s) !! T = None ∧
   task_locked (redis (request_task_for_agent now A s).2) !! T
     = Some (A, 3600)).
Proof.
  pose proof (request_outcome now A s) as Ho.
  destruct (request_task_for_agent now A s) as [[d|e] s'] eqn:Hr; simpl.
  - destruct Ho as [[_ ->]|(_ & s2 & r & T' & (_ & _ & q & Hq) & Hs & Has)];
      [by left|].
    pose proof (lua_script_task _ _ _ _ Hs) as (_ & _ & _ & Hlk & _).
    apply lua_script_task_state in Hs as [q' ->].
    replace s' with (assign now A T' (with_redis
      (with_locked (<[T':=(A, 3600)]> (task_locked (redis s2)))
         (with_queue q' (redis s2))) s2)).2 by (by rewrite Has).
    unfold assign; simpl. rewrite Hq in Hlk |- *. simpl.
    unfold Lock, GET_locked in Hlk. simpl in Hlk.
    destruct (decide (T' = T)) as [->|Hne].
    + right. rewrite lookup_insert_eq. split; [|done].
      by destruct (task_locked (redis s) !! T).
    + left. by rewrite lookup_insert_ne.
  - left. destruct Ho as (_ & _ & q & ->). done.
Qed.

Lemma submit_locks now T' A text code s T :
  task_locked (redis (submit_transcription now T' A text code s).2) !! T
    = task_locked (redis s) !! T ∨
  (T' = T ∧ Lock T (redis s) = Some A ∧
   task_locked (redis (submit_transcription now T' A text code s).2) !! T
     = None).
Proof.
  unfold submit_transcription.
  destruct (not_holder T' A (redis s)) eqn:Hh; [by left|].
  case_bool_decide; [by left|]. simpl.
  destruct (decide (T' = T)) as [->|Hne].
  - right. rewrite lookup_delete_eq. repeat split.
    unfold not_holder in Hh. unfold Lock.
    destruct (GET_locked T (redis s)) as [b|]; [|done].
    apply bool_decide_eq_false in Hh. f_equal.
    by destruct (decide (b = A)).
  - left. by rewrite lookup_delete_ne.
Qed.

Lemma skip_locks now T' A reason s T :
  task_locked (redis (skip_task now T' A reason s).2) !! T
    = task_locked (redis s) !! T ∨
  (T' = T ∧ Lock T (redis s) = Some A ∧
   task_locked (redis (skip_task now T' A reason s).2) !! T = None).
Proof.
  unfold skip_task.
  destruct (not_holder T' A (redis s)) eqn:Hh; [by left|].
  assert (Hl : ∀ r2 c,
            INCR_global_skips T' (SETEX_skipped T' A 1800 (redis s)) = (c, r2) →
            task_locked (if bool_decide (c = 1)
                         then EXPIRE_global_skips T' 86400 r2 else r2)
            = task_locked (redis s)).
  { intros r2 c. unfold INCR_global_skips; simpl.
    destruct (task_global_skips (redis s) !! T') as [[]|];
      intros [= <- <-]; by case_bool_decide. }
  destruct (INCR_global_skips T' (SETEX_skipped T' A 1800 (redis s)))
    as [c r2] eqn:Ei.
  specialize (Hl r2 c eq_refl). simpl. rewrite Hl.
  destruct (decide (T' = T)) as [->|Hne].
  - right. rewrite lookup_delete_eq. repeat split.
    unfold not_holder in Hh. unfold Lock.
    destruct (GET_locked T (redis s)) as [b|]; [|done].
    apply bool_decide_eq_false in Hh. f_equal.
    by destruct (decide (b = A)).
  - left. by rewrite lookup_delete_ne.
Qed.

Lemma reset_frame s :
  ∃ m, (reset_disabled_tasks s).2 = with_redis (with_global_skips m (redis s)) s.
Proof.
  rewrite reset_disabled_tasks_unfold. simpl.
  destruct (reset_fold_frame (map_to_list (task_global_skips (redis s))).*1
              ([], redis s)) as [m ->].
  by exists m.
Qed.

(** What a step does to the lock of a task: it keeps the entry, removes
    it, or creates it where there was none. *)
Lemma step_locks e s T :
  task_locked (redis (step e s).2) !! T = task_locked (redis s) !! T ∨
  task_locked (redis (step e s).2) !! T = None ∨
  task_locked (redis s) !! T = None.
Proof.
  destruct e as [now A|now T' A text code|now T' A reason|now| |k|answers];
    simpl.
  - destruct (request_locks now A s T) as [H|[H _]]; [|by right; right].
    left. by destruct (request_task_for_agent now A s).
  - destruct (submit_locks now T' A text code s T) as [H|(_ & _ & H)];
      destruct (submit_transcription now T' A text code s); auto.
  - destruct (skip_locks now T' A reason s T) as [H|(_ & _ & H)];
      destruct (skip_task now T' A reason s); auto.
  - left. by destruct (same_but_queue_sync now s) as (_ & _ & q & ->).
  - left. by destruct (reset_frame s) as [m ->].
  - destruct k as [T'|A|T' A|T']; simpl; try by left.
    destruct (decide (T' = T)) as [->|Hne].
    + right; left. apply lookup_delete_eq.
    + left. by apply lookup_delete_ne.
  - by left.
Qed.

Lemma step_locks_kept e s T B :
  Lock T (redis s) = Some B → ¬ releases T B e →
  task_locked (redis (step e s).2) !! T = task_locked (redis s) !! T.
Proof.
  intros Hl Hrel.
  destruct e as [now A|now T' A text code|now T' A reason|now| |k|answers];
    simpl in *.
  - destruct (request_locks now A s T) as [H|[H _]].
    + by destruct (request_task_for_agent now A s).
    + unfold Lock, GET_locked in Hl. by rewrite H in Hl.
  - destruct (submit_locks now T' A text code s T) as [H|(-> & Hh & _)].
    + by destruct (submit_transcription now T' A text code s).
    + destruct Hrel. split; [done|]. congruence.
  - destruct (skip_locks now T' A reason s T) as [H|(-> & Hh & _)].
    + by destruct (skip_task now T' A reason s).
    + destruct Hrel. split; [done|]. congruence.
  - by destruct (same_but_queue_sync now s) as (_ & _ & q & ->).
  - by destruct (reset_frame s) as [m ->].
  - destruct k as [T'|A|T' A|T']; simpl; try done.
    apply lookup_delete_ne. congruence.
  - done.
Qed.

(** X3. No event hands a lock from one agent to another: if [B] holds the lock
    of [T] before a step and [A] holds it after, then [A] is [B]. *)
Theorem lock_never_stolen (e : Event) (s : State) (T A B : Z) :
  Lock T (redis s) = Some B →
  Lock T (redis (step e s).2) = Some A →
  A = B.
Proof.
  unfold Lock, GET_locked. intros Hb Ha.
  destruct (step_locks e s T) as [H|[H|H]]; rewrite H in *;
    [congruence|discriminate|discriminate].
Qed.

(** X4. The holder keeps its lock until it submits or skips the task or the
    lock expires: along every sequence of other events Lock(T) stays [B],
    with the TTL it was given. *)
Theorem lock_held_until_released (T B : Z) (cs : list Event) : ∀ s,
  Lock T (redis s) = Some B →
  Forall (λ e, ¬ releases T B e) cs →
  task_locked (redis (run cs s).2) !! T = task_locked (redis s) !! T ∧
  Lock T (redis (run cs s).2) = Some B.
Proof.
  induction cs as [|c cs IH]; intros s Hl Hall; simpl; [done|].
  apply Forall_cons in Hall as [Hc Hall].
  pose proof (step_locks_kept c s T B Hl Hc) as Hk.
  destruct (step c s) as [x s1]. simpl in Hk.
  assert (Hl1 : Lock T (redis s1) = Some B)
    by (unfold Lock, GET_locked in *; by rewrite Hk).
  destruct (IH s1 Hl1 Hall) as [H1 H2].
  destruct (run cs s1) as [xs s2]. simpl in *.
  split; [congruence|done].
Qed.

Lemma lock_never_stolen_witness :
  ∃ A, Lock 101 (redis (step (Request 2 8) Scenario.held).2) = Some A ∧ A = 7.
Proof.
  exists 7. split; [vm_compute; reflexivity|].
  apply (lock_never_stolen (Request 2 8) Scenario.held 101 7 7);
    vm_compute; reflexivity.
Defined.

Lemma lock_held_until_released_witness :
  Lock 101
    (redis (run [Request 2 8; Sync 3; Submit 4 101 8 "x" 200;
                 Skip 5 102 8 None; ResetDisabled; Expire (KActive 7)]
                Scenario.held).2) = Some 7.
Proof.
  apply (lock_held_until_released 101 7
           [Request 2 8; Sync 3; Submit 4 101 8 "x" 200;
            Skip 5 102 8 None; ResetDisabled; Expire (KActive 7)]
           Scenario.held).
  - vm_compute; reflexivity.
  - repeat constructor; simpl; try tauto; intros [H1 H2]; discriminate.
Defined.

(** ** Skipping *)

Lemma skip_success now T A reason s :
  Lock T (redis s) = Some A →
  skip_task now T A reason s =
    let r1 := SETEX_skipped T A 1800 (redis s) in
    let r2 := (INCR_global_skips T r1).2 in
    let r3 := if bool_decide ((INCR_global_skips T r1).1 = 1)
              then EXPIRE_global_skips T 86400 r2 else r2 in
    let s1 := with_db (skip_in_ledger now A T (reason_or_default reason) (db s))
                      (with_redis r3 s) in
    let r4 := DEL_active A (DEL_locked T (redis s1)) in
    (Return "Task skipped successfully",
     with_redis (with_audit_skips
                   ((A, T, now, reason_or_default reason) :: audit_skips r4) r4)
                s1).
Proof.
  intros Hl. unfold skip_task. rewrite (not_holder_false _ _ _ Hl).
  by destruct (INCR_global_skips T (SETEX_skipped T A 1800 (redis s))).
Qed.

Lemma skip_effect (now T A : Z) (reason : option string) (s : State) :
  Lock T (redis s) = Some A →
  let out := skip_task now T A reason s in
  out.1 = Return "Task skipped successfully" ∧
  task_skipped (redis out.2) = <[(T, A) := 1800]> (task_skipped (redis s)) ∧
  GlobalSkipCount T (redis out.2) = GlobalSkipCount T (redis s) + 1 ∧
  task_global_skips (redis out.2) !! T =
    Some (GlobalSkipCount T (redis s) + 1,
          if bool_decide (GlobalSkipCount T (redis s) + 1 = 1)
          then Some 86400
          else task_global_skips (redis s) !! T ≫= snd) ∧
  (∀ T', T' ≠ T →
     task_global_skips (redis out.2) !! T' = task_global_skips (redis s) !! T') ∧
  task_locked (redis out.2) = delete T (task_locked (redis s)) ∧
  agent_active (redis out.2) = delete A (agent_active (redis s)) ∧
  assignment_queue (redis out.2) = assignment_queue (redis s) ∧
  mem out.2 = mem s ∧ ls out.2 = ls s.
Proof.
  intros Hl. simpl. rewrite (skip_success now T A reason s Hl).
  unfold GlobalSkipCount, GET_global_skips, INCR_global_skips,
    EXPIRE_global_skips. simpl.
  destruct (task_global_skips (redis s) !! T) as [[n ttl]|] eqn:E; simpl.
  - case_bool_decide; simpl.
    + rewrite lookup_alter_eq, !lookup_insert_eq. simpl.
      repeat split; try done.
      intros T' Hne. by rewrite lookup_alter_ne, lookup_insert_ne.
    + rewrite !lookup_insert_eq. simpl. repeat split; try done.
      intros T' Hne. by rewrite lookup_insert_ne.
  - rewrite lookup_alter_eq, !lookup_insert_eq. simpl.
    repeat split; try done.
    intros T' Hne. by rewrite lookup_alter_ne, lookup_insert_ne.
Qed.



Lemma submit_redis_frame now T' A text code s :
  let s' := (submit_transcription now T' A text code s).2 in
  task_skipped (redis s') = task_skipped (redis s) ∧
  task_global_skips (redis s') = task_global_skips (redis s) ∧
  (agent_active (redis s') = agent_active (redis s) ∨
   agent_active (redis s') = delete A (agent_active (redis s))).
Proof.
  simpl. unfold submit_transcription.
  destruct (not_holder T' A (redis s)); [by repeat split; try left|].
  case_bool_decide; [by repeat split; try left|].
  simpl. repeat split. by right.
Qed.

Lemma skip_redis_frame now T' A reason s :
  let s' := (skip_task now T' A reason s).2 in
  (task_skipped (redis s') = task_skipped (redis s) ∨
   task_skipped (redis s') = <[(T', A) := 1800]> (task_skipped (redis s))).
Proof.
  simpl. unfold skip_task.
  destruct (not_holder T' A (redis s)); [by left|].
  unfold INCR_global_skips; simpl.
  destruct (task_global_skips (redis s) !! T') as [[n ttl]|];
    case_bool_decide; simpl; by right.
Qed.

Lemma barred_ext T A s s' :
  (is_Some (task_skipped (redis s) !! (T, A)) →
   is_Some (task_skipped (redis s') !! (T, A))) →
  (agent_active (redis s') !! A = agent_active (redis s) !! A ∨
   agent_active (redis s') !! A = None) →
  barred T A s → barred T A s'.
Proof.
  unfold barred, SkipCooldown, ActiveAssignment, GET_active.
  intros Hc Ha [H1 H2]. split; [by apply Hc|].
  intros d. destruct Ha as [-> | ->]; [apply H2|discriminate].
Qed.

Lemma barred_step T A e s :
  barred T A s → e ≠ Expire (KSkipped T A) →
  barred T A (step e s).2 ∧
  (∀ now, e = Request now A → ¬ offers T (step e s).1).
Proof.
  intros Hb Hne.
  destruct e as [now B|now T' B text code|now T' B reason|now| |k|answers];
    simpl; (split; [|try discriminate]).
  - pose proof (request_outcome now B s) as Ho.
    destruct (request_task_for_agent now B s) as [[d|e] s'] eqn:Hr; simpl.
    + destruct Ho as [[_ ->]|[Hn _]]; [done|].
      destruct (request_fresh _ _ _ _ _ Hn Hr)
        as (_ & Hnc & _ & _ & Ha & Hs & _).
      destruct Hb as [Hc Hact]. split.
      * unfold SkipCooldown. by rewrite Hs.
      * intros d'. unfold ActiveAssignment, GET_active. rewrite Ha.
        destruct (decide (B = A)) as [->|HBA].
        -- rewrite lookup_insert_eq. simpl. intros [= <-] HT.
           apply Hnc. by rewrite HT.
        -- rewrite lookup_insert_ne by done. apply Hact.
    + destruct Ho as (_ & _ & q & Hq). revert Hb.
      apply barred_ext; rewrite Hq; [done|by left].
  - intros now' [= -> ->] (d & Hd & HT).
    destruct (request_task_for_agent now' A s) as [[d'|e] s'] eqn:Hr;
      simpl in Hd; [|discriminate].
    injection Hd as ->. destruct Hb as [Hc Hact].
    apply (Hact d); [|done]. by eapply request_cooldown.
  - pose proof (submit_redis_frame now T' B text code s) as (Hs & _ & Ha).
    destruct (submit_transcription now T' B text code s) as [x s'].
    simpl in *. revert Hb. apply barred_ext; [by rewrite Hs|].
    destruct Ha as [-> | ->]; [by left|].
    destruct (decide (B = A)) as [->|HBA].
    + right. apply lookup_delete_eq.
    + left. by apply lookup_delete_ne.
  - pose proof (skip_redis_frame now T' B reason s) as Hs.
    pose proof (skip_task_frame now T' B reason s) as (_ & _ & _ & Ha).
    destruct (skip_task now T' B reason s) as [x s'].
    simpl in *. revert Hb. apply barred_ext.
    + destruct Hs as [-> | ->]; [done|].
      intros Hc. destruct (decide ((T', B) = (T, A))) as [->|Hn].
      * rewrite lookup_insert_eq. by eexists.
      * by rewrite lookup_insert_ne.
    + destruct Ha as [-> | ->]; [by left|].
      destruct (decide (B = A)) as [->|HBA].
      * right. apply lookup_delete_eq.
      * left. by apply lookup_delete_ne.
  - destruct (same_but_queue_sync now s) as (_ & _ & q & Hq). revert Hb.
    apply barred_ext; rewrite Hq; [done|by left].
  - destruct (reset_frame s) as [m ->]. revert Hb.
    apply barred_ext; [done|by left].
  - revert Hb. destruct k as [T'|B|T' B|T']; simpl;
      apply barred_ext; simpl; try done; try (by left).
    + destruct (decide (B = A)) as [->|HBA].
      * right. apply lookup_delete_eq.
      * left. by apply lookup_delete_ne.
    + rewrite lookup_delete_ne; [done|]. congruence.
  - revert Hb. apply barred_ext; [done|by left].
Qed.

Lemma barred_run (T A : Z) (cs : list Event) : ∀ s,
  barred T A s →
  Expire (KSkipped T A) ∉ cs →
  Forall2 (λ e x, ∀ now, e = Request now A → ¬ offers T x) cs (run cs s).1 ∧
  SkipCooldown T A (redis (run cs s).2).
Proof.
  induction cs as [|c cs IH]; intros s Hb Hcs; simpl.
  - split; [constructor|apply Hb].
  - apply not_elem_of_cons in Hcs as [Hc Hcs].
    destruct (barred_step T A c s Hb) as [Hb1 Hoff]; [congruence|].
    destruct (step c s) as [x s1]. simpl in *.
    destruct (IH s1 Hb1 Hcs) as [H1 H2].
    destruct (run cs s1) as [xs s2]. simpl in *.
    split; [by constructor|done].
Qed.

(** X6. While SkipCooldown(T, A) exists and [T] is not the task [A] holds, no
    request of [A] returns [T]: along every sequence of events in which the
    cooldown key does not expire, each reply to a request of [A] hands out
    another task or none, and the cooldown is still there at the end. *)
Theorem cooldown_respected_until_expiry (T A : Z) (cs : list Event)
    (s : State) :
  barred T A s →
  Expire (KSkipped T A) ∉ cs →
  Forall2 (λ e x, ∀ now, e = Request now A → ¬ offers T x) cs (run cs s).1 ∧
  SkipCooldown T A (redis (run cs s).2).
Proof. apply barred_run. Qed.


Lemma cooldown_respected_until_expiry_witness :
  Forall2 (λ e x, ∀ now, e = Request now 7 → ¬ offers 101 x)
    [Request 3 7; Sync 4; Request 5 8; Request 6 7]
    (run [Request 3 7; Sync 4; Request 5 8; Request 6 7]
         Scenario.skipped_once).1 ∧
  SkipCooldown 101 7
    (redis (run [Request 3 7; Sync 4; Request 5 8; Request 6 7]
                Scenario.skipped_once).2).
Proof.
  apply (cooldown_respected_until_expiry 101 7
           [Request 3 7; Sync 4; Request 5 8; Request 6 7]
           Scenario.skipped_once).
  - split; [vm_compute; by eexists|]. intros d. vm_compute. discriminate.
  - intros H. repeat (apply elem_of_cons in H as [H|H]; [discriminate H|]).
    inversion H.
Defined.


(** ** Reconciliation *)

Lemma sync_success now s ids :
  syncing (mem s) = false → project (mem s) = true →
  unlabeled_tasks (ls s) = Some ids →
  sync_assignment_queue now s =
    let fresh := filter (λ id, id ∉ completed_tasks (mem s)) ids in
    let locked_count :=
      Z.of_nat (length (filter (λ id, EXISTS_locked id (redis s) = true) fresh)) in
    {| redis := with_queue fresh (redis s);
       mem := {| tasks := fresh; last_sync := Some now; syncing := false;
                 completed_tasks := completed_tasks (mem s);
                 total_unlabeled := Z.of_nat (length fresh);
                 total_locked := locked_count;
                 available := Z.of_nat (length fresh) - locked_count;
                 last_updated := Some now; project := true |};
       db := db s; ls := ls s |}.
Proof.
  intros Hs Hp Hu. unfold sync_assignment_queue. rewrite Hs. simpl.
  rewrite Hp, Hu. simpl. by rewrite rebuild_queue_eq.
Qed.

(** X8. A reconciliation that reaches the task source: the store queue and the
    in-memory list both become the unlabeled ids outside CompletedSet, in
    the order of the task source; the cached counts are the length of that
    list, the number of its ids that are locked, and their difference, with
    0 <= locked <= unlabeled; locks, assignments, cooldowns, counters and
    the ledger are not touched. *)
Theorem sync_rebuilds_queue_and_stats (now : Z) (s : State) (ids : list Z) :
  syncing (mem s) = false → project (mem s) = true →
  unlabeled_tasks (ls s) = Some ids →
  let s' := sync_assignment_queue now s in
  let fresh := filter (λ id, id ∉ completed_tasks (mem s)) ids in
  assignment_queue (redis s') = fresh ∧ tasks (mem s') = fresh ∧
  (∀ T, T ∈ assignment_queue (redis s') ↔
        T ∈ ids ∧ T ∉ completed_tasks (mem s)) ∧
  total_unlabeled (mem s') = Z.of_nat (length fresh) ∧
  total_locked (mem s')
    = Z.of_nat (length (filter (λ T, is_Some (Lock T (redis s))) fresh)) ∧
  available (mem s') = total_unlabeled (mem s') - total_locked (mem s') ∧
  0 ≤ total_locked (mem s') ≤ total_unlabeled (mem s') ∧
  last_sync (mem s') = Some now ∧ last_updated (mem s') = Some now ∧
  syncing (mem s') = false ∧
  completed_tasks (mem s') = completed_tasks (mem s) ∧
  same_but_queue s s'.
Proof.
  intros Hs Hp Hu. simpl. rewrite (sync_success now s ids Hs Hp Hu). simpl.
  set (fresh := filter (λ id, id ∉ completed_tasks (mem s)) ids).
  assert (Hf : filter (λ id, EXISTS_locked id (redis s) = true) fresh
               = filter (λ T, is_Some (Lock T (redis s))) fresh).
  { apply list_filter_iff. intros T. unfold EXISTS_locked, Lock, GET_locked.
    rewrite bool_decide_eq_true. by rewrite fmap_is_Some. }
  rewrite Hf.
  split; [done|]. split; [done|].
  split; [intros T; unfold fresh; rewrite list_elem_of_filter; naive_solver|].
  split; [done|]. split; [done|]. split; [done|].
  split.
  { pose proof (length_filter (λ T, is_Some (Lock T (redis s))) fresh). lia. }
  repeat split; try done. by eexists.
Qed.

Lemma sync_rebuilds_queue_and_stats_witness :
  assignment_queue (redis (sync_assignment_queue 3 Scenario.held))
    = [101; 102] ∧
  total_locked (mem (sync_assignment_queue 3 Scenario.held)) = 1 ∧
  available (mem (sync_assignment_queue 3 Scenario.held)) = 1.
Proof.
  destruct (sync_rebuilds_queue_and_stats 3 Scenario.held [101; 102])
    as (H1 & _ & _ & H4 & H5 & H6 & _); try (vm_compute; reflexivity).
  split; [rewrite H1; vm_compute; reflexivity|].
  split; [rewrite H5; vm_compute; reflexivity|].
  rewrite H6, H4, H5. vm_compute; reflexivity.
Defined.

Lemma sync_failure (now : Z) (s : State) :
  syncing (mem s) = true ∨ project (mem s) = false ∨
  unlabeled_tasks (ls s) = None →
  sync_assignment_queue now s = s.
Proof.
  intros H. unfold sync_assignment_queue.
  destruct (syncing (mem s)) eqn:Hs; [done|]. simpl.
  destruct H as [H|[H|H]]; [discriminate| |].
  - rewrite H. destruct s as [r m d l]; simpl in *.
    destruct m; simpl in *. by subst.
  - destruct (project (mem s)); rewrite ?H;
      destruct s as [r m d l]; simpl in *; destruct m; simpl in *; by subst.
Qed.

(** X9. A reconciliation that finds another one running, no project, or a
    task source that raises, leaves the whole state as it was: the queue
    is stale but served. *)
Theorem sync_failure_leaves_state (now : Z) (s : State) :
  syncing (mem s) = true ∨ project (mem s) = false ∨
  unlabeled_tasks (ls s) = None →
  sync_assignment_queue now s = s.
Proof. apply sync_failure. Qed.

Lemma sync_failure_leaves_state_witness :
  sync_assignment_queue 6 Scenario.drained = Scenario.drained.
Proof.
  apply (sync_failure_leaves_state 6 Scenario.drained).
  right; right. vm_compute; reflexivity.
Defined.

(** X10. Reconciling twice in a row, at the same time and with the same answer
    of the task source, is the same as reconciling once. *)
Theorem sync_idempotent (now : Z) (s : State) :
  sync_assignment_queue now (sync_assignment_queue now s)
    = sync_assignment_queue now s.
Proof.
  destruct (syncing (mem s)) eqn:Hs.
  { rewrite !(sync_failure now s); auto. }
  destruct (project (mem s)) eqn:Hp.
  2:{ rewrite !(sync_failure now s); auto. }
  destruct (unlabeled_tasks (ls s)) as [ids|] eqn:Hu.
  2:{ rewrite !(sync_failure now s); auto. }
  rewrite (sync_success now s ids Hs Hp Hu). cbv zeta.
  erewrite sync_success; [|reflexivity|reflexivity|exact Hu].
  reflexivity.
Qed.

(** ** The list of disabled tasks *)

Lemma by_task_id_trans : Transitive by_task_id.
Proof. intros x y z. unfold by_task_id. lia. Qed.

Lemma by_task_id_total : Total by_task_id.
Proof. intros x y. unfold by_task_id. lia. Qed.

Lemma disabled_lookup T r :
  disabled T r ↔ ∃ n ttl, task_global_skips r !! T = Some (n, ttl) ∧ n >= 5.
Proof.
  unfold disabled, K_disable, GlobalSkipCount, GET_global_skips.
  destruct (task_global_skips r !! T) as [[n ttl]|]; simpl.
  - split; [intros; by exists n, ttl|]. by intros (? & ? & [= <- <-] & ?).
  - split; [lia|]. by intros (? & ? & ? & ?).
Qed.

Lemma get_disabled_tasks_elem r T n :
  (T, n) ∈ get_disabled_tasks r ↔
  (∃ ttl, task_global_skips r !! T = Some (n, ttl)) ∧ n >= 5.
Proof.
  unfold get_disabled_tasks. rewrite merge_sort_Permutation, list_elem_of_omap.
  split.
  - intros ([T' [n' ttl]] & Hin & Hf). apply elem_of_map_to_list in Hin.
    simpl in Hf. case_bool_decide; [|discriminate]. injection Hf as -> ->.
    split; [by exists ttl|done].
  - intros [[ttl Hl] Hn]. exists (T, (n, ttl)). split.
    + by apply elem_of_map_to_list.
    + simpl. by rewrite bool_decide_eq_true_2.
Qed.

Lemma omap_keys_sublist {V W} (f : Z * V → option (Z * W)) (l : list (Z * V)) :
  (∀ x y, f x = Some y → y.1 = x.1) → (omap f l).*1 `sublist_of` l.*1.
Proof.
  intros Hf. induction l as [|x l IH]; simpl; [constructor|].
  destruct (f x) as [y|] eqn:E; simpl.
  - rewrite (Hf x y E). by constructor.
  - by constructor.
Qed.

(** X11. [get_disabled_tasks] lists exactly the tasks whose counter is at least
    5, each once and with its counter, in increasing order of task id; a
    task is in the list exactly when the atomic script would drop it. *)
Theorem get_disabled_tasks_complete (r : Redis) :
  (∀ T n, (T, n) ∈ get_disabled_tasks r ↔
          (∃ ttl, task_global_skips r !! T = Some (n, ttl)) ∧ n >= 5) ∧
  (∀ T, disabled T r ↔ (T, GlobalSkipCount T r) ∈ get_disabled_tasks r) ∧
  StronglySorted by_task_id (get_disabled_tasks r) ∧
  NoDup (get_disabled_tasks r).*1.
Proof.
  split; [apply get_disabled_tasks_elem|]. split; [|split].
  - intros T. rewrite get_disabled_tasks_elem, disabled_lookup.
    unfold GlobalSkipCount, GET_global_skips.
    destruct (task_global_skips r !! T) as [[n ttl]|]; simpl.
    + split; [intros (? & ? & [= <- <-] & ?); split; [by eexists|done]|].
      intros [_ ?]. by exists n, ttl.
    + split; [by intros (? & ? & ? & ?)|]. by intros [[? ?] _].
  - apply (@StronglySorted_merge_sort _ by_task_id _ by_task_id_trans
             by_task_id_total).
  - unfold get_disabled_tasks. rewrite merge_sort_Permutation.
    apply (sublist_NoDup _ (map_to_list (task_global_skips r)).*1);
      [apply NoDup_fst_map_to_list|].
    apply omap_keys_sublist. intros [T [n ttl]] y. simpl.
    case_bool_decide; [|discriminate]. by intros [= <-].
Qed.

(** X12. A skip by the holder disables the task exactly when its counter stood
    at 4 or more: from then on [get_disabled_tasks] lists it with the new
    counter and the atomic script answers it to no agent. *)
Theorem skip_disables_at_threshold (now T A : Z) (reason : option string)
    (s : State) :
  Lock T (redis s) = Some A →
  let s' := (skip_task now T A reason s).2 in
  (disabled T (redis s') ↔ GlobalSkipCount T (redis s) >= 4) ∧
  ((T, GlobalSkipCount T (redis s) + 1) ∈ get_disabled_tasks (redis s')
   ↔ GlobalSkipCount T (redis s) >= 4) ∧
  (GlobalSkipCount T (redis s) >= 4 →
   ∀ B, (lua_script B (redis s')).1 ≠ TaskId T).
Proof.
  intros Hl.
  destruct (skip_effect now T A reason s Hl) as (_ & _ & Hc & Hk & _).
  simpl in *.
  assert (Hd : disabled T (redis (skip_task now T A reason s).2)
               ↔ GlobalSkipCount T (redis s) >= 4).
  { unfold disabled, K_disable. rewrite Hc. lia. }
  split; [exact Hd|]. split.
  - rewrite get_disabled_tasks_elem, Hk. split; [lia|].
    intros ?. split; [by eexists|lia].
  - intros Hge B Hs. apply Hd in Hge.
    destruct (lua_script B (redis (skip_task now T A reason s).2))
      as [rep r] eqn:El.
    simpl in Hs. subst rep.
    apply lua_script_task in El as (_ & Hlt & _). unfold disabled in Hge. lia.
Qed.

Lemma skip_disables_at_threshold_witness :
  disabled 400 (redis (skip_task 10 400 5 None Scenario.four_skips_held).2) ∧
  (400, 5) ∈ get_disabled_tasks
               (redis (skip_task 10 400 5 None Scenario.four_skips_held).2).
Proof.
  destruct (skip_disables_at_threshold 10 400 5 None Scenario.four_skips_held)
    as (H1 & H2 & _); [vm_compute; reflexivity|].
  split.
  - apply H1. vm_compute. discriminate.
  - replace 5 with (GlobalSkipCount 400 (redis Scenario.four_skips_held) + 1)
      by (vm_compute; reflexivity).
    apply H2. vm_compute. discriminate.
Defined.

(** ** Counting available tasks *)

(** X13. [get_available_task_count] gives a count for the agent only when the
    stats cache has been filled and an agent id other than 0 is passed;
    the count is the number of ids of the in-memory list that are neither
    locked nor in cooldown for that agent, so it lies between 0 and the
    length of that list.  With an empty cache the reply carries the length
    of the in-memory list twice and a reconciliation is scheduled. *)
Theorem available_for_agent_count (agent_id : option Z) (s : State) :
  let out := get_available_task_count agent_id s in
  (is_Some (available_for_agent out.1) ↔
   is_Some (last_updated (mem s)) ∧ ∃ a, agent_id = Some a ∧ a ≠ 0) ∧
  (∀ n, available_for_agent out.1 = Some n →
     ∃ a, agent_id = Some a ∧
       n = Z.of_nat (length (filter
             (λ T, ¬ SkipCooldown T a (redis s) ∧ Lock T (redis s) = None)
             (tasks (mem s)))) ∧
       0 ≤ n ≤ Z.of_nat (length (tasks (mem s)))) ∧
  (last_updated (mem s) = None →
     out.2 = true ∧ note out.1 = Some "Stats syncing" ∧
     available_tasks out.1 = Z.of_nat (length (tasks (mem s))) ∧
     cr_total_unlabeled out.1 = Z.of_nat (length (tasks (mem s)))) ∧
  (is_Some (last_updated (mem s)) →
     out.2 = false ∧ note out.1 = None ∧
     available_tasks out.1 = available (mem s) ∧
     cr_total_unlabeled out.1 = total_unlabeled (mem s)).
Proof.
  simpl. unfold get_available_task_count.
  destruct (last_updated (mem s)) as [t|]; simpl.
  - split; [|split; [|split; [discriminate|done]]].
    + destruct agent_id as [a|]; [case_bool_decide|]; simpl.
      * split; [intros _; split; [by eexists|by exists a]|by eexists].
      * split; [by intros [? ?]|]. intros [_ (a' & [= <-] & ?)]. done.
      * split; [by intros [? ?]|]. by intros [_ (a' & ? & ?)].
    + intros n. destruct agent_id as [a|]; [|discriminate].
      case_bool_decide; [|discriminate]. intros [= <-]. exists a.
      split; [done|].
      assert (Hf : filter (λ task_id, EXISTS_skipped task_id a (redis s) = false
                                      ∧ EXISTS_locked task_id (redis s) = false)
                     (tasks (mem s))
                   = filter (λ T, ¬ SkipCooldown T a (redis s)
                                  ∧ Lock T (redis s) = None) (tasks (mem s))).
      { apply list_filter_iff. intros T.
        unfold EXISTS_skipped, EXISTS_locked, SkipCooldown, Lock, GET_locked.
        rewrite !bool_decide_eq_false, fmap_None, <- !eq_None_not_Some.
        reflexivity. }
      rewrite Hf. split; [done|].
      pose proof (length_filter
        (λ T, ¬ SkipCooldown T a (redis s) ∧ Lock T (redis s) = None)
        (tasks (mem s))). lia.
  - split; [|split; [discriminate|split; [done|by intros [? ?]]]].
    split; [by intros [? ?]|]. by intros [[? ?] _].
Qed.

(** ** The ledger along call sequences *)

(** What a step does to the ledger: nothing, the bookkeeping of an
    assignment, that of a submit, or that of a skip. *)
Lemma step_db e s :
  db (step e s).2 = db s ∨
  (∃ now A row, agent_id row = A ∧ status row = assigned ∧
     db (step e s).2 =
       {| transcription_sessions := transcription_sessions (db s) ++ [row];
          agent_stats :=
            <[A := touch now (default default_stats (agent_stats (db s) !! A))]>
              (agent_stats (db s)) |}) ∨
  (∃ now A T len, db (step e s).2 = complete_in_ledger now A T len (db s)) ∨
  (∃ now A T reason, db (step e s).2 = skip_in_ledger now A T reason (db s)).
Proof.
  destruct e as [now A|now T A text code|now T A reason|now| |k|answers];
    simpl.
  - pose proof (request_outcome now A s) as H.
    destruct (request_task_for_agent now A s) as [[d|e] s']; simpl.
    + destruct H as [[_ ->]|(_ & s2 & r & T & (Hd & _) & _ & Has)]; [by left|].
      right; left. unfold assign in Has. injection Has as _ <-. simpl.
      rewrite Hd. eexists now, A, _.
      split; [|split]; [| |reflexivity]; reflexivity.
    + left. by destruct H as (Hd & _).
  - unfold submit_transcription.
    destruct (not_holder T A (redis s)); [by left|].
    case_bool_decide; [by left|]. right; right; left. simpl. by eexists _, _, _, _.
  - unfold skip_task.
    destruct (not_holder T A (redis s)); [by left|].
    destruct (INCR_global_skips _ _). right; right; right. simpl.
    by eexists _, _, _, _.
  - left. by destruct (same_but_queue_sync now s) as (Hd & _).
  - left. by destruct (reset_frame s) as [m ->].
  - by left.
  - by left.
Qed.

(** Flipping the assigned rows of (A, T) to another status adds them to the
    rows of [A] with that status and leaves every other count alone. *)
Lemma rows_flip (g : TranscriptionSession → TranscriptionSession)
    (A T B : Z) (st st' : Status) (l : list TranscriptionSession) :
  (∀ x, agent_id (g x) = agent_id x) → (∀ x, status (g x) = st') →
  st ≠ assigned →
  length (filter (λ x, agent_id x = B ∧ status x = st)
            ((λ x, if is_assigned_to A T x then g x else x) <$> l)) =
  (length (filter (λ x, agent_id x = B ∧ status x = st) l)
   + if decide (B = A ∧ st' = st)
     then length (filter (λ x, is_assigned_to A T x = true) l) else 0)%nat.
Proof.
  intros Hag Hst Hne. induction l as [|x l IH]; [by case_decide|].
  rewrite fmap_cons, !filter_cons.
  destruct (is_assigned_to A T x) eqn:E.
  - apply is_assigned_to_spec in E as (Ha & Ht & Hs).
    rewrite (decide_True (P := true = true)) by done.
    rewrite (decide_False (P := agent_id x = B ∧ status x = st))
      by (rewrite Hs; intros [_ ?]; congruence).
    rewrite Hag, Hst, Ha.
    destruct (decide (B = A ∧ st' = st)) as [[-> ->]|Hn].
    + rewrite decide_True by done. simpl. rewrite IH. lia.
    + rewrite decide_False by (intros [? ?]; apply Hn; by split).
      rewrite IH. lia.
  - rewrite (decide_False (P := false = true)) by discriminate.
    destruct (decide (agent_id x = B ∧ status x = st)); simpl;
      rewrite IH; case_decide; lia.
Qed.

Lemma counts_bounded_complete now A T len d :
  counts_bounded d → counts_bounded (complete_in_ledger now A T len d).
Proof.
  intros Hb. unfold complete_in_ledger.
  destruct (last (filter _ _)) as [session|] eqn:El; [|done].
  assert (Hn : (1 ≤ length (filter (λ x, is_assigned_to A T x = true)
                              (transcription_sessions d)))%nat).
  { destruct (filter _ (transcription_sessions d)); [discriminate|simpl; lia]. }
  unfold counts_bounded, completed_rows, skipped_rows in *. simpl.
  intros B a.
  rewrite (rows_flip _ A T B completed completed),
          (rows_flip _ A T B skipped completed) by done.
  rewrite (decide_False (P := B = A ∧ completed = skipped))
    by (intros [_ ?]; discriminate).
  assert (Hkeep : agent_stats d !! B = Some a →
    0 ≤ total_tasks_completed a ≤
      Z.of_nat (length (filter (λ x, agent_id x = B ∧ status x = completed)
                          (transcription_sessions d))
                + (if decide (B = A ∧ completed = completed)
                   then length (filter (λ x, is_assigned_to A T x = true)
                                  (transcription_sessions d))
                   else 0)) ∧
    0 ≤ total_tasks_skipped a ≤
      Z.of_nat (length (filter (λ x, agent_id x = B ∧ status x = skipped)
                          (transcription_sessions d)) + 0)).
  { intros Ha. destruct (Hb B a Ha) as [H1 H2]. split; [|lia].
    case_decide; lia. }
  destruct (agent_stats d !! A) as [a0|] eqn:Ea; [|exact Hkeep].
  destruct (truthy (duration_seconds session)) as [dur|]; [|exact Hkeep].
  destruct (decide (B = A)) as [->|Hne].
  - rewrite lookup_insert_eq. intros [= <-]. simpl.
    destruct (Hb A a0 Ea) as [H1 H2].
    rewrite decide_True by done. split; lia.
  - rewrite lookup_insert_ne by done. exact Hkeep.
Qed.

Lemma counts_bounded_skip now A T reason d :
  counts_bounded d → counts_bounded (skip_in_ledger now A T reason d).
Proof.
  intros Hb. unfold skip_in_ledger.
  destruct (filter (λ x, is_assigned_to A T x = true) (transcription_sessions d))
    as [|x0 l0] eqn:El; [done|].
  unfold counts_bounded, completed_rows, skipped_rows in *. simpl.
  intros B a.
  rewrite (rows_flip _ A T B completed skipped),
          (rows_flip _ A T B skipped skipped) by done.
  rewrite (decide_False (P := B = A ∧ skipped = completed))
    by (intros [_ ?]; discriminate).
  rewrite El.
  assert (Hkeep : agent_stats d !! B = Some a →
    0 ≤ total_tasks_completed a ≤
      Z.of_nat (length (filter (λ x, agent_id x = B ∧ status x = completed)
                          (transcription_sessions d)) + 0) ∧
    0 ≤ total_tasks_skipped a ≤
      Z.of_nat (length (filter (λ x, agent_id x = B ∧ status x = skipped)
                          (transcription_sessions d))
                + (if decide (B = A ∧ skipped = skipped)
                   then length (x0 :: l0) else 0))).
  { intros Ha. destruct (Hb B a Ha) as [H1 H2]. split; [lia|].
    case_decide; lia. }
  destruct (agent_stats d !! A) as [a0|] eqn:Ea; [|exact Hkeep].
  destruct (decide (B = A)) as [->|Hne].
  - rewrite lookup_insert_eq. intros [= <-]. simpl.
    destruct (Hb A a0 Ea) as [H1 H2].
    rewrite decide_True by done. simpl. split; lia.
  - rewrite lookup_insert_ne by done. exact Hkeep.
Qed.

Lemma counts_bounded_step e s :
  counts_bounded (db s) → counts_bounded (db (step e s).2).
Proof.
  intros Hb.
  destruct (step_db e s) as [->|[(now & A & row & Ha & Hs & ->)
    |[(now & A & T & len & ->)|(now & A & T & reason & ->)]]];
    [done| |by apply counts_bounded_complete|by apply counts_bounded_skip].
  unfold counts_bounded, completed_rows, skipped_rows in *. simpl.
  intros B a. rewrite !filter_app, !filter_cons, !filter_nil.
  rewrite !decide_False by (rewrite Hs; intros [_ ?]; discriminate).
  rewrite !app_nil_r.
  destruct (decide (B = A)) as [->|Hne].
  - rewrite lookup_insert_eq. intros [= <-]. simpl.
    destruct (agent_stats (db s) !! A) as [a0|] eqn:Ea; simpl.
    + by apply Hb.
    + split; lia.
  - rewrite lookup_insert_ne by done. apply Hb.
Qed.

(** X14. Along every sequence of events the aggregate of an agent counts at most
    the agent's rows: [total_tasks_completed] never exceeds the number of
    'completed' rows of the agent, [total_tasks_skipped] never exceeds the
    number of its 'skipped' rows, and neither is negative. *)
Theorem aggregates_bounded_by_rows (cs : list Event) (s : State) :
  counts_bounded (db s) → counts_bounded (db (run cs s).2).
Proof.
  revert s. induction cs as [|c cs IH]; intros s Hb; simpl; [done|].
  pose proof (counts_bounded_step c s Hb) as H1.
  destruct (step c s) as [x s1]. simpl in H1.
  specialize (IH s1 H1). by destruct (run cs s1).
Qed.

Lemma aggregates_bounded_by_rows_witness :
  counts_bounded
    (db (run [Request 1 7; Skip 2 101 7 None; Request 3 7;
              Submit 4 102 7 "hello" 200] (Scenario.boot [101; 102])).2).
Proof.
  apply (aggregates_bounded_by_rows
           [Request 1 7; Skip 2 101 7 None; Request 3 7;
            Submit 4 102 7 "hello" 200] (Scenario.boot [101; 102])).
  intros A a H. vm_compute in H. discriminate.
Defined.

Lemma row_evolves_refl x : row_evolves x x.
Proof. by repeat split. Qed.

Lemma row_evolves_trans x y z :
  row_evolves x y → row_evolves y z → row_evolves x z.
Proof.
  intros (H1 & H2 & H3 & H4 & H5) (G1 & G2 & G3 & G4 & G5).
  repeat split; try congruence.
  intros Hs. specialize (H5 Hs). subst y. by apply G5.
Qed.

Lemma ledger_evolves_refl l : ledger_evolves l l.
Proof.
  exists l, []. split; [by rewrite app_nil_r|].
  apply Forall2_same_length_lookup_2; [done|].
  intros i x y Hx Hy. rewrite Hx in Hy. injection Hy as <-.
  apply row_evolves_refl.
Qed.

Lemma ledger_evolves_trans l1 l2 l3 :
  ledger_evolves l1 l2 → ledger_evolves l2 l3 → ledger_evolves l1 l3.
Proof.
  intros (a & b & -> & Ha) (c & d & -> & Hc).
  apply Forall2_app_inv_l in Hc as (c1 & c2 & Hc1 & Hc2 & ->).
  exists c1, (c2 ++ d). split; [by rewrite app_assoc|].
  revert c1 Hc1. induction Ha as [|x y l a Hxy Ha IH]; intros c1 Hc1.
  - apply Forall2_nil_inv_l in Hc1 as ->. constructor.
  - apply Forall2_cons_inv_l in Hc1 as (z & c1' & Hyz & Hc1 & ->).
    constructor; [by eapply row_evolves_trans|by apply IH].
Qed.

(** Flipping the assigned rows of (A, T) changes each row in place, and
    only rows that were still 'assigned'. *)
Lemma ledger_evolves_flip (g : TranscriptionSession → TranscriptionSession)
    (A T : Z) (l : list TranscriptionSession) :
  (∀ x, agent_id (g x) = agent_id x ∧ ts_task_id (g x) = ts_task_id x ∧
        assigned_at (g x) = assigned_at x ∧
        duration_seconds (g x) = duration_seconds x) →
  ledger_evolves l ((λ x, if is_assigned_to A T x then g x else x) <$> l).
Proof.
  intros Hg. eexists _, []. split; [by rewrite app_nil_r|].
  apply Forall2_fmap_r, Forall2_same_length_lookup_2; [done|].
  intros i x y Hx Hy. rewrite Hx in Hy. injection Hy as <-.
  simpl. destruct (is_assigned_to A T x) eqn:E; [|apply row_evolves_refl].
  apply is_assigned_to_spec in E as (_ & _ & Hs).
  destruct (Hg x) as (H1 & H2 & H3 & H4). by repeat split.
Qed.

Lemma ledger_evolves_step e s :
  ledger_evolves (transcription_sessions (db s))
                 (transcription_sessions (db (step e s).2)).
Proof.
  destruct (step_db e s) as [->|[(now & A & row & Ha & Hs & ->)
    |[(now & A & T & len & ->)|(now & A & T & reason & ->)]]].
  - apply ledger_evolves_refl.
  - simpl. exists (transcription_sessions (db s)), [row]. split; [done|].
    destruct (ledger_evolves_refl (transcription_sessions (db s)))
      as (l1 & l2 & Hl & HF).
    apply Forall2_same_length_lookup_2; [done|].
    intros i x y Hx Hy. rewrite Hx in Hy. injection Hy as <-.
    apply row_evolves_refl.
  - unfold complete_in_ledger.
    destruct (last _); [|apply ledger_evolves_refl]. simpl.
    by apply ledger_evolves_flip.
  - unfold skip_in_ledger.
    destruct (filter _ _); [apply ledger_evolves_refl|]. simpl.
    by apply ledger_evolves_flip.
Qed.

Lemma ledger_evolves_run (cs : list Event) : ∀ s,
  ledger_evolves (transcription_sessions (db s))
                 (transcription_sessions (db (run cs s).2)).
Proof.
  induction cs as [|c cs IH]; intros s; simpl; [apply ledger_evolves_refl|].
  pose proof (ledger_evolves_step c s) as H1.
  destruct (step c s) as [x s1]. simpl in H1.
  specialize (IH s1). destruct (run cs s1) as [xs s2]. simpl in *.
  by eapply ledger_evolves_trans.
Qed.

(** X15. The ledger only grows: along every sequence of events each row stays at
    its position with its agent, task, assignment time and duration, a row
    that is 'completed' or 'skipped' never changes again, and new rows are
    added at the end.  In particular no row is ever deleted. *)
Theorem ledger_append_only (cs : list Event) (s : State) :
  let l := transcription_sessions (db s) in
  let l' := transcription_sessions (db (run cs s).2) in
  (length l ≤ length l')%nat ∧
  ∀ i x, l !! i = Some x →
    ∃ y, l' !! i = Some y ∧
      agent_id y = agent_id x ∧ ts_task_id y = ts_task_id x ∧
      assigned_at y = assigned_at x ∧
      duration_seconds y = duration_seconds x ∧
      (status x ≠ assigned → y = x).
Proof.
  simpl. destruct (ledger_evolves_run cs s) as (l1 & l2 & -> & HF).
  split.
  - rewrite length_app, <- (Forall2_length _ _ _ HF). lia.
  - intros i x Hx.
    destruct (Forall2_lookup_l _ _ _ _ _ HF Hx) as (y & Hy & Hxy).
    exists y. split; [|exact Hxy].
    by apply lookup_app_l_Some.
Qed.

(** ** No id is queued twice *)












(** ** No task is assigned to two agents at once *)

Lemma active_holds_lock_ext r r' :
  task_locked r' = task_locked r →
  (∀ B, agent_active r' !! B = agent_active r !! B ∨ agent_active r' !! B = None) →
  active_holds_lock r → active_holds_lock r'.
Proof.
  unfold active_holds_lock, ActiveAssignment, GET_active, Lock, GET_locked.
  intros -> Ha H B d Hd. apply H.
  destruct (Ha B) as [Hb|Hb]; rewrite Hb in Hd; [done|discriminate].
Qed.

(** Releasing the lock of [T] together with the active assignment of its
    holder. *)
Lemma active_holds_lock_release T A r r' :
  Lock T r = Some A →
  task_locked r' = delete T (task_locked r) →
  agent_active r' = delete A (agent_active r) →
  active_holds_lock r → active_holds_lock r'.
Proof.
  unfold active_holds_lock, ActiveAssignment, GET_active, Lock, GET_locked.
  intros Hl -> -> H B d Hd.
  destruct (decide (B = A)) as [->|Hne];
    [by rewrite lookup_delete_eq in Hd|].
  rewrite lookup_delete_ne in Hd by done.
  specialize (H B d Hd).
  destruct (decide (task_id d = T)) as [Ht|Ht].
  - rewrite Ht, Hl in H. congruence.
  - by rewrite lookup_delete_ne.
Qed.

Lemma submit_release now T A text code s :
  let s' := (submit_transcription now T A text code s).2 in
  (task_locked (redis s') = task_locked (redis s) ∧
   agent_active (redis s') = agent_active (redis s)) ∨
  (Lock T (redis s) = Some A ∧
   task_locked (redis s') = delete T (task_locked (redis s)) ∧
   agent_active (redis s') = delete A (agent_active (redis s))).
Proof.
  simpl. unfold submit_transcription.
  destruct (not_holder T A (redis s)) eqn:Hh; [by left|].
  case_bool_decide; [by left|]. right. simpl. split; [|done].
  unfold not_holder in Hh. unfold Lock.
  destruct (GET_locked T (redis s)) as [b|]; [|done].
  apply bool_decide_eq_false in Hh. f_equal. by destruct (decide (b = A)).
Qed.

Lemma skip_release now T A reason s :
  let s' := (skip_task now T A reason s).2 in
  (task_locked (redis s') = task_locked (redis s) ∧
   agent_active (redis s') = agent_active (redis s)) ∨
  (Lock T (redis s) = Some A ∧
   task_locked (redis s') = delete T (task_locked (redis s)) ∧
   agent_active (redis s') = delete A (agent_active (redis s))).
Proof.
  simpl. unfold skip_task.
  destruct (not_holder T A (redis s)) eqn:Hh; [by left|]. right.
  split.
  - unfold not_holder in Hh. unfold Lock.
    destruct (GET_locked T (redis s)) as [b|]; [|done].
    apply bool_decide_eq_false in Hh. f_equal. by destruct (decide (b = A)).
  - unfold INCR_global_skips; simpl.
    destruct (task_global_skips (redis s) !! T) as [[n ttl]|];
      case_bool_decide; simpl; by split.
Qed.

Lemma active_holds_lock_request now A s :
  active_holds_lock (redis s) →
  active_holds_lock (redis (request_task_for_agent now A s).2).
Proof.
  intros H. pose proof (request_outcome now A s) as Ho.
  destruct (request_task_for_agent now A s) as [[d|e] s'] eqn:Hr; simpl.
  - destruct Ho as [[_ ->]|(_ & s2 & r & T & (_ & _ & q & Hq) & Hs & Has)];
      [done|].
    pose proof (lua_script_task _ _ _ _ Hs) as (_ & _ & _ & Hlk & _).
    apply lua_script_task_state in Hs as [q' ->].
    destruct (assign_frame now A T (with_redis
      (with_locked (<[T:=(A, 3600)]> (task_locked (redis s2)))
         (with_queue q' (redis s2))) s2)) as (Ht & _ & _ & _ & _ & Hl & _ & Ha).
    rewrite Has in Ht, Hl, Ha. simpl in Ht, Hl, Ha.
    rewrite Hq in Hlk, Hl, Ha. simpl in Hl, Ha.
    unfold active_holds_lock, ActiveAssignment, GET_active, Lock, GET_locked
      in *. simpl in Hlk.
    intros B d'. rewrite Hl, Ha.
    destruct (decide (B = A)) as [->|Hne].
    + rewrite lookup_insert_eq. intros [= <-]. simpl.
      by rewrite Ht, lookup_insert_eq.
    + rewrite lookup_insert_ne by done. intros Hd'.
      specialize (H B d' Hd').
      destruct (decide (task_id d' = T)) as [Heq|Hneq].
      * rewrite Heq, Hlk in H. discriminate.
      * by rewrite lookup_insert_ne.
  - destruct Ho as (_ & _ & q & ->).
    by apply (active_holds_lock_ext (redis s)); [|intros; left|].
Qed.

Lemma active_holds_lock_step e s :
  (∀ T, e ≠ Expire (KLocked T)) →
  active_holds_lock (redis s) → active_holds_lock (redis (step e s).2).
Proof.
  intros He H.
  destruct e as [now A|now T A text code|now T A reason|now| |k|answers];
    simpl.
  - pose proof (active_holds_lock_request now A s H).
    by destruct (request_task_for_agent now A s).
  - destruct (submit_release now T A text code s) as [[Hl Ha]|(Hl & Hd & Ha)];
      destruct (submit_transcription now T A text code s) as [x s'];
      simpl in *.
    + apply (active_holds_lock_ext (redis s)); [done| |done].
      intros B. left. by rewrite Ha.
    + by apply (active_holds_lock_release T A (redis s)).
  - destruct (skip_release now T A reason s) as [[Hl Ha]|(Hl & Hd & Ha)];
      destruct (skip_task now T A reason s) as [x s']; simpl in *.
    + apply (active_holds_lock_ext (redis s)); [done| |done].
      intros B. left. by rewrite Ha.
    + by apply (active_holds_lock_release T A (redis s)).
  - destruct (same_but_queue_sync now s) as (_ & _ & q & ->).
    by apply (active_holds_lock_ext (redis s)); [|intros; left|].
  - destruct (reset_frame s) as [m ->].
    by apply (active_holds_lock_ext (redis s)); [|intros; left|].
  - destruct k as [T|A|T A|T]; simpl.
    + by destruct (He T).
    + apply (active_holds_lock_ext (redis s)); [done| |done].
      intros B. simpl. destruct (decide (B = A)) as [->|Hne].
      * right. apply lookup_delete_eq.
      * left. by apply lookup_delete_ne.
    + by apply (active_holds_lock_ext (redis s)); [|intros; left|].
    + by apply (active_holds_lock_ext (redis s)); [|intros; left|].
  - done.
Qed.

Lemma active_holds_lock_run (cs : list Event) : ∀ s,
  Forall (λ e, ∀ T, e ≠ Expire (KLocked T)) cs →
  active_holds_lock (redis s) → active_holds_lock (redis (run cs s).2).
Proof.
  induction cs as [|c cs IH]; intros s Hall Hs; simpl; [done|].
  apply Forall_cons in Hall as [Hc Hall].
  pose proof (active_holds_lock_step c s Hc Hs) as H1.
  destruct (step c s) as [x s1]. simpl in H1.
  specialize (IH s1 Hall H1). by destruct (run cs s1).
Qed.

(** X17. As long as no lock expires, every active assignment is backed by the
    lock of its task, whatever requests, submits, skips, reconciliations,
    resets and other expiries happen; hence no two agents ever have active
    assignments that name the same task. *)
Theorem no_double_assignment (cs : list Event) (s : State) :
  active_holds_lock (redis s) →
  Forall (λ e, ∀ T, e ≠ Expire (KLocked T)) cs →
  active_holds_lock (redis (run cs s).2) ∧
  ∀ A B dA dB,
    ActiveAssignment A (redis (run cs s).2) = Some dA →
    ActiveAssignment B (redis (run cs s).2) = Some dB →
    task_id dA = task_id dB → A = B.
Proof.
  intros Hs Hall. pose proof (active_holds_lock_run cs s Hall Hs) as H.
  split; [done|]. intros A B dA dB Ha Hb Heq.
  apply H in Ha. apply H in Hb. rewrite Heq in Ha. congruence.
Qed.

Lemma no_double_assignment_witness :
  active_holds_lock (redis (run
     [Request 1 7; Request 2 8; Skip 3 101 7 None; Request 4 7;
      Expire (KActive 8); Request 5 8; Submit 6 102 8 "hello" 200]
     (Scenario.boot [101; 102; 103])).2) ∧
  Lock 103 (redis (run
     [Request 1 7; Request 2 8; Skip 3 101 7 None; Request 4 7;
      Expire (KActive 8); Request 5 8; Submit 6 102 8 "hello" 200]
     (Scenario.boot [101; 102; 103])).2) = Some 7.
Proof.
  destruct (no_double_assignment
     [Request 1 7; Request 2 8; Skip 3 101 7 None; Request 4 7;
      Expire (KActive 8); Request 5 8; Submit 6 102 8 "hello" 200]
     (Scenario.boot [101; 102; 103])) as [H _].
  - intros A d H. vm_compute in H. discriminate.
  - repeat constructor; intros T; discriminate.
  - split; [exact H|]. vm_compute. reflexivity.
Defined.
